(** * racelogic-ref-to-dbc: a model of [main.go] and its checked properties

    The development follows the three stages of the converter:
    the container reader ([readUpToCRLF], [readZlibStr], [decompressZlib] and
    the first half of [processFile]), the line parser ([parseSignalLines])
    and the serializer ([writeDBC]).

    Conventions.
    - A Go [string] or [[]byte] is a [list byte]; [str "text"] turns a literal
      into one.
    - Go's [int] is taken to be 64 bits wide ([intSize]); integers are [Z]
      with their range checks written out.
    - The input file behind the [bufio.Reader] is the bytes not yet read
      together with what the file returns once they are exhausted: a clean
      [io.EOF] or some other read failure.
    - Functions of Go's libraries whose tables or algorithms are not part of
      this program (float parsing and printing, Unicode case mapping, DEFLATE)
      are the fields of the class [GoLibs]; every definition and theorem is
      parametric in them. *)

From Stdlib Require Import ZArith List String Ascii Bool Lia.
From Stdlib Require Import Strings.Byte.
From Stdlib Require Import DecimalString.
From stdpp Require Import gmap list sorting.

Local Open Scope Z_scope.

(** ** Go strings *)

Abbreviation text := (list byte).

Definition str (s : string) : text := list_byte_of_string s.

#[global] Instance byte_eq_dec : EqDecision byte := Byte.byte_eq_dec.

Definition code (b : byte) : Z := Z.of_N (Byte.to_N b).

Definition CR : byte := x0d.
Definition LF : byte := x0a.
Definition TAB : byte := x09.
Definition QUOTE : byte := x22.

(** [fmt]'s [%d] on an integer. *)
Definition formatInt (z : Z) : text := str (NilZero.string_of_int (Z.to_int z)).

(** ** Library functions taken as parameters *)

Class GoLibs := {
  (** Go's [float64]. *)
  float64 : Type;
  (** The value returned by [strconv.ParseFloat(s, 64)]; the program drops
      the error returned with it. *)
  ParseFloat : text -> float64;
  (** [fmt]'s [%g] on a [float64]. *)
  FormatG : float64 -> text;
  (** [strings.ToLower]. *)
  ToLower : text -> text;
  (** What [compress/zlib] does after the two header bytes: preset
      dictionary, DEFLATE blocks and the Adler-32 trailer, read to the end
      with [io.ReadAll].  The first argument is the FLG header byte; [None]
      is any error. *)
  inflateBody : byte -> text -> option text
}.

(** ** The input stream *)

Inductive IOError := EOF | ErrUnexpectedEOF | ErrIO.

(** What the file returns after its last byte. *)
Inductive Ending := CleanEOF | ReadFailure.

Record Reader := mkReader { unread : list byte; ending : Ending }.

Inductive Result (E A : Type) :=
| Ok (a : A)
| Err (e : E).
Arguments Ok {E A} a.
Arguments Err {E A} e.

#[global] Instance result_ret {E} : MRet (Result E) := fun A a => Ok a.
#[global] Instance result_bind {E} : MBind (Result E) := fun A B k c =>
  match c with
  | Ok a => k a
  | Err e => Err e
  end.

(** [c] with its error put in the context [f], as [fmt.Errorf("...: %w", err)] does. *)
Definition orFail {E E' A} (f : E -> E') (c : Result E A) : Result E' A :=
  match c with
  | Ok a => Ok a
  | Err e => Err (f e)
  end.

Definition IO (A : Type) := Reader -> Result IOError (A * Reader).

Definition endError (r : Reader) : IOError :=
  match ending r with
  | CleanEOF => EOF
  | ReadFailure => ErrIO
  end.

(** [bufio.Reader.ReadByte]. *)
Definition ReadByte : IO byte := fun r =>
  match unread r with
  | b :: rest => Ok (b, mkReader rest (ending r))
  | [] => Err (endError r)
  end.

(** [bufio.Reader.Discard]: skips [n] bytes, or fails with the stream's error
    when fewer are left. *)
Definition Discard (n : nat) : IO unit := fun r =>
  if (n <=? length (unread r))%nat
  then Ok (tt, mkReader (drop n (unread r)) (ending r))
  else Err (endError r).

(** [io.ReadFull] into a buffer of [n] bytes. *)
Definition ReadFull (n : nat) : IO (list byte) := fun r =>
  if (n <=? length (unread r))%nat
  then Ok (take n (unread r), mkReader (drop n (unread r)) (ending r))
  else Err (match unread r, ending r with
            | _, ReadFailure => ErrIO
            | [], CleanEOF => EOF
            | _ :: _, CleanEOF => ErrUnexpectedEOF
            end).

Definition beUint16 (hi lo : byte) : Z := code hi * 256 + code lo.

(** [binary.Read(r, binary.BigEndian, &v)] for [v] a [uint16]. *)
Definition readUint16 : IO Z := fun r =>
  '(bs, r') ← ReadFull 2 r;
  match bs with
  | [hi; lo] => Ok (beUint16 hi lo, r')
  | _ => Err ErrUnexpectedEOF
  end.

(** [readUpToCRLF]'s loop, by recursion on the unread bytes.  [Peek(2)]
    succeeds when two bytes are left; a CR LF pair ends the loop and stays
    unread.  When [Peek(2)] fails at a clean end of file, [io.ReadAll] returns
    what is left with a nil error. *)
Fixpoint scanCRLF (line buf : list byte) (e : Ending)
  : Result IOError (list byte * Reader) :=
  match buf with
  | b0 :: (b1 :: _) as rest =>
      if bool_decide (b0 = CR) && bool_decide (b1 = LF)
      then Ok (line, mkReader buf e)
      else scanCRLF (line ++ [b0]) rest e
  | _ =>
      match e with
      | CleanEOF => Ok (line ++ buf, mkReader [] e)
      | ReadFailure => Err ErrIO
      end
  end.

Definition readUpToCRLF : IO (list byte) := fun r =>
  scanCRLF [] (unread r) (ending r).

Inductive BlockError :=
| LengthError (e : IOError)
| DataError (expected : Z) (e : IOError).

Definition readZlibStr (r : Reader) : Result BlockError (list byte * Reader) :=
  '(length, r) ← orFail LengthError (readUint16 r);
  '(data, r) ← orFail (DataError length) (ReadFull (Z.to_nat length) r);
  Ok (data, r).

(** ** zlib *)

Definition zlibDeflate : Z := 8.
Definition zlibMaxWindow : Z := 7.

(** The header test of [zlib.NewReader] (RFC 1950, section 2.2). *)
Definition zlibHeaderOK (cmf flg : byte) : bool :=
  (Z.land (code cmf) 15 =? zlibDeflate)
  && (Z.shiftr (code cmf) 4 <=? zlibMaxWindow)
  && ((code cmf * 256 + code flg) mod 31 =? 0).

Definition decompressZlib `{GoLibs} (compressedData : list byte) : option (list byte) :=
  match compressedData with
  | cmf :: flg :: rest =>
      if zlibHeaderOK cmf flg then inflateBody flg rest else None
  | _ => None
  end.

(** ** Splitting an entry into lines *)

Definition MaxScanTokenSize : Z := 65536.

(** [bufio.ScanLines] drops one trailing CR. *)
Definition dropCR (data : list byte) : list byte :=
  match reverse data with
  | b :: rest => if bool_decide (b = CR) then reverse rest else data
  | [] => data
  end.

(** The tokens of a [bufio.Scanner] with the default split function and
    buffer: [cur] is the current line, reversed.  A last line without a
    newline is a token when it is not empty; [MaxScanTokenSize] bytes without
    a newline stop the scan ([bufio.ErrTooLong], which the program does not
    look at). *)
Fixpoint scanTokens (cur data : list byte) : list (list byte) :=
  match data with
  | [] => match cur with
          | [] => []
          | _ => [dropCR (reverse cur)]
          end
  | b :: rest =>
      if bool_decide (b = LF) then dropCR (reverse cur) :: scanTokens [] rest
      else if MaxScanTokenSize <=? Z.of_nat (length cur) + 1 then []
      else scanTokens (b :: cur) rest
  end.

Definition asciiSpace (b : byte) : bool :=
  bool_decide (b = TAB) || bool_decide (b = LF) || bool_decide (b = x0b)
  || bool_decide (b = x0c) || bool_decide (b = CR) || bool_decide (b = x20).

(** [strings.TrimSpace(s) == ""]: every rune of [s] is white space.  Besides
    the six ASCII ones these are U+0085, U+00A0, U+1680, U+2000 to U+200A,
    U+2028, U+2029, U+202F, U+205F and U+3000 in UTF-8. *)
Fixpoint isBlank (s : list byte) : bool :=
  match s with
  | [] => true
  | b :: rest =>
      if asciiSpace b then isBlank rest
      else match code b, rest with
           | 194, b1 :: rest' =>
               (bool_decide (b1 = x85) || bool_decide (b1 = xa0)) && isBlank rest'
           | 225, b1 :: b2 :: rest' =>
               bool_decide (b1 = x9a) && bool_decide (b2 = x80) && isBlank rest'
           | 226, b1 :: b2 :: rest' =>
               ((bool_decide (b1 = x80)
                 && ((128 <=? code b2) && (code b2 <=? 138)
                     || bool_decide (b2 = xa8) || bool_decide (b2 = xa9)
                     || bool_decide (b2 = xaf)))
                || (bool_decide (b1 = x81) && bool_decide (b2 = x9f)))
               && isBlank rest'
           | 227, b1 :: b2 :: rest' =>
               bool_decide (b1 = x80) && bool_decide (b2 = x80) && isBlank rest'
           | _, _ => false
           end
  end.

(** The lines one decompressed entry adds to [allLines]. *)
Definition entryLines (decompressedData : list byte) : list text :=
  filter (fun line => isBlank line = false) (scanTokens [] decompressedData).

(** ** The data model *)

Record Signal `{GoLibs} := mkSignal {
  Name : text;
  StartBit : Z;
  Length : Z;
  ByteOrder : Z;   (* 0 for Motorola (big-endian), 1 for Intel (little-endian) *)
  IsSigned : bool;
  Factor : float64;
  Offset : float64;
  Min : float64;
  Max : float64;
  Unit : text
}.
Arguments mkSignal {_}.

Record Message `{GoLibs} := mkMessage {
  ID : Z;
  MsgName : text;
  DLC : Z;
  Node : text;
  Signals : list Signal
}.
Arguments mkMessage {_}.

(** ** strconv *)

Inductive NumError := ErrSyntax | ErrRange.

Definition intSize : Z := 64.

Definition isDigit (c : byte) : bool := (48 <=? code c) && (code c <=? 57).

(** The digit loop of [strconv.ParseUint] in base 10: [n] is the [uint64]
    accumulator.  The first character that is not a digit is a syntax error;
    the first step that leaves the range is a range error, whatever follows. *)
Fixpoint parseDigits (maxVal n : Z) (s : text) : Z * option NumError :=
  match s with
  | [] => (n, None)
  | c :: rest =>
      if negb (isDigit c) then (0, Some ErrSyntax)
      else if (2 ^ 64 - 1) / 10 + 1 <=? n then (maxVal, Some ErrRange)
      else
        let n10 := n * 10 in
        let n1 := (n10 + (code c - 48)) mod 2 ^ 64 in
        if (n1 <? n10) || (maxVal <? n1) then (maxVal, Some ErrRange)
        else parseDigits maxVal n1 rest
  end.

(** [strconv.ParseUint(s, 10, bitSize)]. *)
Definition ParseUint (s : text) (bitSize : Z) : Z * option NumError :=
  match s with
  | [] => (0, Some ErrSyntax)
  | _ => parseDigits (2 ^ bitSize - 1) 0 s
  end.

(** [strconv.ParseInt(s, 10, 0)].  As its documentation says, a value that
    does not fit comes back as "the maximum magnitude integer of the
    appropriate bitSize and sign", together with the range error. *)
Definition ParseInt (s : text) : Z * option NumError :=
  match s with
  | [] => (0, Some ErrSyntax)
  | c :: rest =>
      let neg := bool_decide (c = "-"%byte) in
      let digits := if bool_decide (c = "+"%byte) || neg then rest else s in
      match ParseUint digits intSize with
      | (_, Some ErrSyntax) => (0, Some ErrSyntax)
      | (un, _) =>
          let cutoff := 2 ^ (intSize - 1) in
          if negb neg && (cutoff <=? un) then (cutoff - 1, Some ErrRange)
          else if neg && (cutoff <? un) then (- cutoff, Some ErrRange)
          else (if neg then - un else un, None)
      end
  end.

(** [strconv.Atoi]: "equivalent to ParseInt(s, 10, 0), converted to type int". *)
Definition Atoi (s : text) : Z * option NumError := ParseInt s.

(** ** strings *)

(** [strings.Trim(s, cutset)] for an ASCII cutset. *)
Fixpoint trimLeft (cutset : text) (s : text) : text :=
  match s with
  | c :: rest => if bool_decide (c ∈ cutset) then trimLeft cutset rest else s
  | [] => []
  end.

Definition Trim (s cutset : text) : text :=
  reverse (trimLeft cutset (reverse (trimLeft cutset s))).

(** [strings.Split(s, sep)] for a one-byte separator; [cur] is the current
    field, reversed. *)
Fixpoint splitAt (sep : byte) (cur s : text) : list text :=
  match s with
  | [] => [reverse cur]
  | c :: rest =>
      if bool_decide (c = sep) then reverse cur :: splitAt sep [] rest
      else splitAt sep (c :: cur) rest
  end.

Definition Split (s : text) (sep : byte) : list text := splitAt sep [] s.

Section Converter.
Context `{GoLibs}.

(** ** The line parser *)

Definition defaultNode : text := str "VECTOR__XXX".

(** The conversion [uint32(msgID)] of a [uint64]. *)
Definition uint32 (n : Z) : Z := n mod 2 ^ 32.

Definition withDLC (m : Message) (dlc : Z) : Message :=
  mkMessage (ID m) (MsgName m) dlc (Node m) (Signals m).

Definition appendSignal (signal : Signal) (m : Message) : Message :=
  mkMessage (ID m) (MsgName m) (DLC m) (Node m) (Signals m ++ [signal]).

(** [parts] of a line: trailing commas cleaned up, then split. *)
Definition fields (line : text) : list text :=
  Split (Trim line [x20; TAB; ","%byte]) ","%byte.

(** The body of the loop of [parseSignalLines] on one line: the map of
    messages and the warnings flag before and after. *)
Definition parseLine (st : gmap Z Message * bool) (line : text)
  : gmap Z Message * bool :=
  let '(messages, hasWarnings) := st in
  let parts := fields line in
  let part (k : nat) := nth k parts [] in
  if (length parts <? 11)%nat then (messages, true)
  else
    match ParseUint (part 1%nat) 32 with
    | (_, Some _) => (messages, true)
    | (msgID, None) =>
        let startBit := fst (Atoi (part 3%nat)) in
        let length_ := fst (Atoi (part 4%nat)) in
        let offset := ParseFloat (part 5%nat) in
        let factor := ParseFloat (part 6%nat) in
        let max := ParseFloat (part 7%nat) in
        let min := ParseFloat (part 8%nat) in
        let isSigned := bool_decide (ToLower (part 9%nat) = str "signed") in
        let byteOrder :=
          if bool_decide (ToLower (part 10%nat) = str "intel") then 1 else 0 in
        let '(dlc, hasWarnings) :=
          if (12 <=? length parts)%nat
          then match Atoi (part 11%nat) with
               | (dlc, None) => (dlc, hasWarnings)
               | (_, Some _) => (8, true)
               end
          else (8, true) in
        let messages :=
          match messages !! uint32 msgID with
          | None =>
              <[uint32 msgID :=
                  mkMessage (uint32 msgID) (str "CAN_MSG_" ++ formatInt msgID)
                            dlc defaultNode []]> messages
          | Some m =>
              if DLC m <? dlc then <[uint32 msgID := withDLC m dlc]> messages
              else messages
          end in
        let signal :=
          mkSignal (part 0%nat) startBit length_ byteOrder isSigned
                   factor offset min max (part 2%nat) in
        (alter (appendSignal signal) (uint32 msgID) messages, hasWarnings)
    end.

(** [parseSignalLines]; its error result is always nil. *)
Definition parseSignalLines (lines : list text) : gmap Z Message * bool :=
  fold_left parseLine lines (∅, false).

(** ** The serializer *)

Definition nsKeywords : list string :=
  [ "CM_"; "BA_DEF_"; "BA_"; "VAL_"; "CAT_DEF_"; "CAT_"; "FILTER";
    "BA_DEF_DEF_"; "EV_DATA_"; "ENVVAR_DATA_"; "SGTYPE_"; "SGTYPE_VAL_";
    "BA_DEF_SGTYPE_"; "BA_SGTYPE_"; "SIG_TYPE_REF_"; "VAL_TABLE_";
    "SIG_GROUP_"; "SIG_VALTYPE_"; "SIGTYPE_VALTYPE_"; "BO_TX_BU_";
    "BA_DEF_REL_"; "BA_REL_"; "BA_DEF_DEF_REL_"; "BU_SG_REL_"; "BU_EV_REL_";
    "BU_BO_REL_"; "SG_MUL_VAL_" ]%string.

(** The writes before the first message, one element per call. *)
Definition preamble : list text :=
  [ str "VERSION " ++ [QUOTE; QUOTE; LF; LF];
    str "NS_ :" ++ concat (map (fun k => [LF; TAB] ++ str k) nsKeywords) ++ [LF];
    [LF] ++ str "BS_:" ++ [LF; LF];
    str "BU_: " ++ defaultNode ++ [LF; LF] ].

(** The [BO_] line of a message. *)
Definition frameLine (msg : Message) : text :=
  str "BO_ " ++ formatInt (ID msg) ++ str " " ++ MsgName msg ++ str ": "
  ++ formatInt (DLC msg) ++ str " " ++ Node msg ++ [LF].

(** The [SG_] line of a signal. *)
Definition signalLine (sig : Signal) : text :=
  let byteOrderChar := if ByteOrder sig =? 1 then "1"%byte else "0"%byte in
  let signChar := if IsSigned sig then "-"%byte else "+"%byte in
  str " SG_ " ++ Name sig ++ str " : " ++ formatInt (StartBit sig) ++ str "|"
  ++ formatInt (Length sig) ++ str "@" ++ [byteOrderChar; signChar]
  ++ str " (" ++ FormatG (Factor sig) ++ str "," ++ FormatG (Offset sig)
  ++ str ") [" ++ FormatG (Min sig) ++ str "|" ++ FormatG (Max sig)
  ++ str "] " ++ [QUOTE] ++ Unit sig ++ [QUOTE] ++ str " " ++ defaultNode ++ [LF].

(** [sort.Slice(ids, less)]: the identifiers are the keys of a map, hence
    distinct, and on distinct integers every sorting algorithm returns the
    same slice; the model inserts each element in turn. *)
Fixpoint insertSorted (less : Z -> Z -> bool) (x : Z) (l : list Z) : list Z :=
  match l with
  | [] => [x]
  | y :: rest => if less x y then x :: l else y :: insertSorted less x rest
  end.

Definition sortSlice (less : Z -> Z -> bool) (l : list Z) : list Z :=
  foldr (insertSorted less) [] l.

(** The writes for one message: its frame line, its signal lines and an
    empty line. [messages[id]] of an absent [id] does not occur, the
    identifiers being the keys. *)
Definition messageBlock (messages : gmap Z Message) (id : Z) : list text :=
  match messages !! id with
  | Some msg => frameLine msg :: map signalLine (Signals msg) ++ [[LF]]
  | None => []
  end.

(** [writeDBC] when [range messages] yields the keys in the order [keys]:
    the writes to [w], one element per call. *)
Definition writeDBCFrom (keys : list Z) (messages : gmap Z Message) : list text :=
  let ids := sortSlice Z.ltb keys in
  preamble ++ concat (map (messageBlock messages) ids).

(** [writeDBC], with the keys in the order [map_to_list] has them; the
    result does not depend on that order ([sortSlice_order]). *)
Definition writeDBC (messages : gmap Z Message) : list text :=
  writeDBCFrom (fst <$> map_to_list messages) messages.

(** ** The container reader and [processFile] *)

Inductive Fatal :=
| FailOpen
| FailHeader (e : IOError)
| FailHeaderDelimiter (e : IOError)
| FailSerialString (e : IOError)
| FailSerialDelimiter (e : IOError)
| FailZlibSerial (e : BlockError)
| FailEntryCount (e : IOError)
| FailEntry (number : Z) (e : BlockError)
| FailRemaining (e : IOError)
| FailCreate
| FailFlush.

(** The loop over the entries: [n] entries are still to be read, [i] is the
    loop counter.  An error comes with the warnings flag as it was. *)
Fixpoint readEntries (n : nat) (i : Z) (allLines : list text) (hasWarnings : bool)
    (reader : Reader) : Result (bool * Fatal) (list text * bool * Reader) :=
  match n with
  | O => Ok (allLines, hasWarnings, reader)
  | S n' =>
      '(compressedData, reader) ←
        orFail (fun e => (hasWarnings, FailEntry (i + 1) e)) (readZlibStr reader);
      match decompressZlib compressedData with
      | None => readEntries n' (i + 1) allLines true reader
      | Some decompressedData =>
          readEntries n' (i + 1) (allLines ++ entryLines decompressedData)
                      hasWarnings reader
      end
  end.

(** Steps 1 to 4 of [processFile]: the lines of all entries and the warnings
    flag. *)
Definition readContainer (reader : Reader) : Result (bool * Fatal) (list text * bool) :=
  let hasWarnings := false in
  '(_, reader) ← orFail (fun e => (hasWarnings, FailHeader e)) (readUpToCRLF reader);
  '(_, reader) ← orFail (fun e => (hasWarnings, FailHeaderDelimiter e)) (Discard 2 reader);
  '(_, reader) ← orFail (fun e => (hasWarnings, FailSerialString e)) (readUpToCRLF reader);
  '(_, reader) ← orFail (fun e => (hasWarnings, FailSerialDelimiter e)) (Discard 2 reader);
  '(_, reader) ← orFail (fun e => (hasWarnings, FailZlibSerial e)) (readZlibStr reader);
  '(totalEntries, reader) ←
    orFail (fun e => (hasWarnings, FailEntryCount e)) (readUint16 reader);
  '(allLines, hasWarnings, reader) ←
    readEntries (Z.to_nat totalEntries) 0 [] hasWarnings reader;
  match ReadByte reader with
  | Ok _ => Ok (allLines, true)
  | Err EOF => Ok (allLines, hasWarnings)
  | Err e => Err (hasWarnings, FailRemaining e)
  end.

(** The output file: it can be created and written, or [os.Create] fails, or
    a write fails, which [Flush] reports. *)
Inductive Sink := SinkOK | SinkCreateFails | SinkFlushFails.

(** What [processFile] returns, and the text it wrote when it returned no
    error. *)
Record Outcome := mkOutcome {
  hasWarnings : bool;
  err : option Fatal;
  written : option text
}.

(** [processFile]: [input] is the file behind [inputPath], [None] when it
    cannot be opened. *)
Definition processFile (input : option Reader) (output : Sink) : Outcome :=
  match input with
  | None => mkOutcome false (Some FailOpen) None
  | Some reader =>
      match readContainer reader with
      | Err (hasWarnings, e) => mkOutcome hasWarnings (Some e) None
      | Ok (allLines, hasWarnings) =>
          let '(messages, parseWarnings) := parseSignalLines allLines in
          let hasWarnings := hasWarnings || parseWarnings in
          match output with
          | SinkCreateFails => mkOutcome hasWarnings (Some FailCreate) None
          | SinkFlushFails => mkOutcome hasWarnings (Some FailFlush) None
          | SinkOK => mkOutcome hasWarnings None (Some (concat (writeDBC messages)))
          end
      end
  end.

(** ** Views used to state the properties *)

(** The two steps [processFile] takes for each of the two header fields,
    without their error contexts. *)
Definition headerField : IO text := fun reader =>
  '(field, reader) ← readUpToCRLF reader;
  '(_, reader) ← Discard 2 reader;
  Ok (field, reader).

(** [readContainer] from the entry count on. *)
Definition afterHeaders (reader : Reader) : Result (bool * Fatal) (list text * bool) :=
  '(totalEntries, reader) ←
    orFail (fun e => (false, FailEntryCount e)) (readUint16 reader);
  '(allLines, hasWarnings, reader) ←
    readEntries (Z.to_nat totalEntries) 0 [] false reader;
  match ReadByte reader with
  | Ok _ => Ok (allLines, true)
  | Err EOF => Ok (allLines, hasWarnings)
  | Err e => Err (hasWarnings, FailRemaining e)
  end.

(** [readContainer] from the serial block on. *)
Definition afterFields (reader : Reader) : Result (bool * Fatal) (list text * bool) :=
  '(_, reader) ← orFail (fun e => (false, FailZlibSerial e)) (readZlibStr reader);
  afterHeaders reader.

(** The bytes a step takes from the stream, when it succeeds. *)
Definition consumed {A} (step : IO A) (reader : Reader) : option nat :=
  match step reader with
  | Ok (_, reader') => Some (length (unread reader) - length (unread reader'))%nat
  | Err _ => None
  end.

(** A CR LF pair occurs in [s]. *)
Fixpoint hasCRLF (s : text) : bool :=
  match s with
  | b0 :: (b1 :: _) as rest =>
      (bool_decide (b0 = CR) && bool_decide (b1 = LF)) || hasCRLF rest
  | _ => false
  end.

(** The key of the message a line goes to; [None] for a line the parser
    skips (fewer than 11 fields, or a message ID [ParseUint] refuses). *)
Definition lineKey (line : text) : option Z :=
  let parts := fields line in
  if (length parts <? 11)%nat then None
  else match ParseUint (nth 1 parts []) 32 with
       | (msgID, None) => Some (uint32 msgID)
       | (_, Some _) => None
       end.

(** The DLC a line carries: its 12th field, or 8 when that is absent or
    [Atoi] refuses it. *)
Definition lineDLC (line : text) : Z :=
  let parts := fields line in
  if (12 <=? length parts)%nat
  then match Atoi (nth 11 parts []) with
       | (dlc, None) => dlc
       | (_, Some _) => 8
       end
  else 8.

(** The signal built from a line. *)
Definition lineSignal (line : text) : Signal :=
  let part (k : nat) := nth k (fields line) [] in
  mkSignal (part 0%nat) (fst (Atoi (part 3%nat))) (fst (Atoi (part 4%nat)))
           (if bool_decide (ToLower (part 10%nat) = str "intel") then 1 else 0)
           (bool_decide (ToLower (part 9%nat) = str "signed"))
           (ParseFloat (part 6%nat)) (ParseFloat (part 5%nat))
           (ParseFloat (part 8%nat)) (ParseFloat (part 7%nat)) (part 2%nat).

(** The lines that go to the message with key [id], in input order. *)
Definition linesFor (id : Z) (lines : list text) : list text :=
  filter (fun line => lineKey line = Some id) lines.

(** The line says nothing usable about the DLC, and 8 is assumed. *)
Definition dlcAssumed (line : text) : bool :=
  let parts := fields line in
  if (12 <=? length parts)%nat
  then match Atoi (nth 11 parts []) with
       | (_, None) => false
       | (_, Some _) => true
       end
  else true.

(** A message as it is created for its first line. *)
Definition newMessage (id dlc : Z) : Message :=
  mkMessage id (str "CAN_MSG_" ++ formatInt id) dlc defaultNode [].

(** The lookup-or-create step of the loop for a line with key [id]. *)
Definition upsert (id dlc : Z) (messages : gmap Z Message) : gmap Z Message :=
  match messages !! id with
  | None => <[id := newMessage id dlc]> messages
  | Some m => if DLC m <? dlc then <[id := withDLC m dlc]> messages else messages
  end.

(** What the lines for [id] make of its message: created for the first,
    the DLC raised and a signal appended by each. *)
Definition absorb (id : Z) (o : option Message) (line : text) : option Message :=
  if decide (lineKey line = Some id)
  then Some (appendSignal (lineSignal line)
               match o with
               | None => newMessage id (lineDLC line)
               | Some m => if DLC m <? lineDLC line then withDLC m (lineDLC line) else m
               end)
  else o.

(** The message with key [id] that a list of lines yields. *)
Definition built (id : Z) (lines : list text) : option Message :=
  match linesFor id lines with
  | [] => None
  | first :: others =>
      Some (mkMessage id (str "CAN_MSG_" ++ formatInt id)
              (fold_left Z.max (map lineDLC others) (lineDLC first))
              defaultNode (map lineSignal (first :: others)))
  end.

(** The value of a string of decimal digits. *)
Definition decimalValue (s : text) : Z :=
  fold_left (fun n c => n * 10 + (code c - 48)) s 0.

(** The writes for a message that was looked up. *)
Definition frameBlock (msg : Message) : list text :=
  frameLine msg :: map signalLine (Signals msg) ++ [[LF]].

(** A write of [writeDBC] is a frame line when it starts with [BO_ ]. *)
Definition isFrameLine (chunk : text) : bool :=
  bool_decide (take 4 chunk = str "BO_ ").

(** The lines of the entries that decompress, entry by entry. *)
Definition linesOf (entries : list text) : list text :=
  concat (map entryLines (omap decompressZlib entries)).

Definition anyCorrupt (entries : list text) : bool :=
  existsb (fun entry => bool_decide (decompressZlib entry = None)) entries.

End Converter.

(** ** The layout of a container *)

Definition byteOf (z : Z) : byte :=
  match Byte.of_N (Z.to_N z) with
  | Some b => b
  | None => x00
  end.

Definition u16be (n : Z) : text := [byteOf (n / 256); byteOf (n mod 256)].

(** A length-prefixed block. *)
Definition block (payload : text) : text :=
  u16be (Z.of_nat (length payload)) ++ payload.

Definition fitsUint16 (payload : text) : Prop :=
  Z.of_nat (length payload) < 65536.

(** Two header fields, each followed by CR LF, and the serial block. *)
Definition headers (header serial blob : text) : text :=
  header ++ [CR; LF] ++ serial ++ [CR; LF] ++ block blob.

(** A whole container: headers, entry count and entries. *)
Definition container (header serial blob : text) (entries : list text) : text :=
  headers header serial blob ++ u16be (Z.of_nat (length entries))
  ++ concat (map block entries).

Record wellFormed (header serial blob : text) (entries : list text) : Prop := {
  wf_header : hasCRLF header = false;
  wf_serial : hasCRLF serial = false;
  wf_blob : fitsUint16 blob;
  wf_count : Z.of_nat (length entries) < 65536;
  wf_entries : Forall fitsUint16 entries
}.

(** ** A library to run the model on

    Floats are kept as the text they were written as; [ToLower] maps the
    ASCII capitals; the zlib body is decoded when it consists of stored
    (uncompressed) DEFLATE blocks and no preset dictionary. *)

Definition adler32 (data : text) : Z :=
  let '(a, b) :=
    fold_left (fun '(a, b) c => let a' := (a + code c) mod 65521 in
                               (a', (b + a') mod 65521))
              data (1, 0) in
  b * 65536 + a.

Definition beUint32 (b3 b2 b1 b0 : byte) : Z :=
  ((code b3 * 256 + code b2) * 256 + code b1) * 256 + code b0.

Fixpoint storedBlocks (fuel : nat) (out s : text) : option text :=
  match fuel, s with
  | S fuel', hdr :: l0 :: l1 :: n0 :: n1 :: rest =>
      let len := code l0 + 256 * code l1 in
      let nlen := code n0 + 256 * code n1 in
      if (Z.land (code hdr) 6 =? 0) && (len + nlen =? 65535)
         && (len <=? Z.of_nat (length rest))
      then
        let out' := out ++ take (Z.to_nat len) rest in
        let rest' := drop (Z.to_nat len) rest in
        if Z.odd (code hdr)
        then match rest' with
             | b3 :: b2 :: b1 :: b0 :: _ =>
                 if beUint32 b3 b2 b1 b0 =? adler32 out' then Some out' else None
             | _ => None
             end
        else storedBlocks fuel' out' rest'
      else None
  | _, _ => None
  end.

Definition asciiLower (c : byte) : byte :=
  if (65 <=? code c) && (code c <=? 90) then byteOf (code c + 32) else c.

Definition storedOnly : GoLibs := {|
  float64 := text;
  ParseFloat := fun s => s;
  FormatG := fun f => f;
  ToLower := map asciiLower;
  inflateBody := fun flg body =>
    if Z.land (code flg) 32 =? 0 then storedBlocks (length body) [] body else None
|}.

(** A zlib stream holding [data] in one stored block. *)
Definition zlibStore (data : text) : text :=
  let len := Z.of_nat (length data) in
  let sum := adler32 data in
  [x78; x01; x01; byteOf (len mod 256); byteOf (len / 256);
   byteOf ((65535 - len) mod 256); byteOf ((65535 - len) / 256)]
  ++ data
  ++ [byteOf (sum / 16777216); byteOf (sum / 65536 mod 256);
      byteOf (sum / 256 mod 256); byteOf (sum mod 256)].

(** ** Sample lines and a sample container *)

Definition lineA : text := str "RPM,256,rpm,0,16,0,0.25,16000,0,Unsigned,Intel,8".
Definition lineB : text := str "Temp,256,C,16,8,-40,1,215,-40,signed,Motorola,3,".
Definition lineC : text := str "Speed,1000,kph,0,16,0,0.01,655,0,unsigned,intel".
Definition lineD : text := str "Gear,20,,99999999999999999999,x,0,1,8,0,unsigned,intel,2".

Definition sampleEntries : list text :=
  [ zlibStore (lineC ++ [LF] ++ lineA ++ [CR; LF; LF]);
    str "not zlib";
    zlibStore (lineD ++ [LF] ++ lineB) ].

Definition sampleContainer : text :=
  container (str "RACELOGIC") (str "SN0042") (str "not zlib") sampleEntries.

Definition sampleMessages : gmap Z (@Message storedOnly) :=
  (@parseSignalLines storedOnly [lineC; lineA; lineD; lineB]).1.

Definition lineBigID : text := str "Gear,4294967296,,0,8,0,1,8,0,unsigned,intel,2".
Definition lineSignedID : text := str "Gear,+20,,0,8,0,1,8,0,unsigned,intel,2".
Definition lineShort : text := str "RPM,256,rpm,0,16,,".

(** ** [main] *)

(** One call of [processFile]. *)
Record Conversion := mkConversion {
  convInput : text;
  convOutput : text;
  convOutcome : Outcome
}.

Section Main.
Context `{GoLibs}.

(** The file system [main] runs in, as far as [processFile] uses it: a path
    opens for reading or does not, an output path can be created and
    written or cannot, and a call of [processFile] on two paths leaves the
    file system changed. *)
Variable World : Type.
Variable openInput : World -> text -> option Reader.
Variable createOutput : World -> text -> Sink.
Variable afterConversion : World -> text -> text -> World.

(** The default output path of an input path, which [path/filepath]
    computes: the input's directory joined with its base name, the
    extension replaced by [.dbc]. *)
Variable defaultOutput : text -> text.

(** What a run of [main] does: its exit status (1 from [os.Exit(1)], 0 when
    it returns), whether it printed the warning that [-o] is ignored, its
    calls of [processFile] in order, the counter it prints and the flag on
    which it waits for Enter. *)
Record Run := mkRun {
  exitStatus : Z;
  outputFlagWarning : bool;
  conversions : list Conversion;
  filesProcessed : Z;
  hadAnyIssues : bool;
  world : World
}.

(** The input files: the [-i] flag when it is not empty, then the
    positional arguments. *)
Definition inputFilesOf (inputFileFlag : text) (args : list text) : list text :=
  (if bool_decide (inputFileFlag = []) then [] else [inputFileFlag]) ++ args.

(** The output path of one input: [-o] when it is given and there is one
    input file, the default path otherwise. *)
Definition outputPathFor (inputFiles : list text) (outputFileFlag currentInput : text)
  : text :=
  if bool_decide (length inputFiles = 1%nat) && negb (bool_decide (outputFileFlag = []))
  then outputFileFlag
  else defaultOutput currentInput.

(** The loop over the input files. *)
Fixpoint mainLoop (inputFiles : list text) (outputFileFlag : text)
    (remaining : list text) (run : Run) : Run :=
  match remaining with
  | [] => run
  | currentInput :: rest =>
      let currentOutput := outputPathFor inputFiles outputFileFlag currentInput in
      let outcome := processFile (openInput (world run) currentInput)
                                 (createOutput (world run) currentOutput) in
      let world' := afterConversion (world run) currentInput currentOutput in
      let calls := conversions run
                   ++ [mkConversion currentInput currentOutput outcome] in
      mainLoop inputFiles outputFileFlag rest
        match err outcome with
        | Some _ =>
            mkRun 0 (outputFlagWarning run) calls (filesProcessed run) true world'
        | None =>
            mkRun 0 (outputFlagWarning run) calls (filesProcessed run + 1)
                  (hadAnyIssues run || hasWarnings outcome) world'
        end
  end.

(** [main]: with no input file it prints the usage and exits with status 1;
    otherwise it warns when [-o] comes with more than one input file, and
    converts the input files one after the other. *)
Definition main (inputFileFlag outputFileFlag : text) (args : list text)
    (w : World) : Run :=
  let inputFiles := inputFilesOf inputFileFlag args in
  match inputFiles with
  | [] => mkRun 1 false [] 0 false w
  | _ :: _ =>
      let warned := bool_decide (1 < length inputFiles)%nat
                    && negb (bool_decide (outputFileFlag = [])) in
      mainLoop inputFiles outputFileFlag inputFiles (mkRun 0 warned [] 0 false w)
  end.

End Main.

Arguments exitStatus {World} _.
Arguments outputFlagWarning {World} _.
Arguments conversions {World} _.
Arguments filesProcessed {World} _.
Arguments hadAnyIssues {World} _.
Arguments world {World} _.

(** A conversion counts as processed when it returned no error. *)
Definition processed (c : Conversion) : bool :=
  bool_decide (err (convOutcome c) = None).

(** A conversion is an issue when it returned an error or warned. *)
Definition issue (c : Conversion) : bool :=
  negb (processed c) || hasWarnings (convOutcome c).

(** ** Views for further properties *)

(** Lines put together the way an entry holds them, each ended by LF. *)
Definition joinLines (lines : list text) : text :=
  concat (map (fun line => line ++ [LF]) lines).

(** A line the scanner takes whole: it holds no LF and is shorter than the
    scanner's limit. *)
Definition scannable (line : text) : Prop :=
  (LF ∉ line) /\ Z.of_nat (length line) < MaxScanTokenSize.

(** What an entry holds: nothing when it does not decompress; otherwise the
    lines of its text, each ended by LF, and a last line that has no LF
    (empty when the text ends in LF). *)
Definition holds `{GoLibs} (entry : text) (content : option (list text * text))
  : Prop :=
  match content with
  | None => decompressZlib entry = None
  | Some (lines, last) =>
      decompressZlib entry = Some (joinLines lines ++ last)
      /\ Forall scannable (lines ++ [last])
  end.

(** The lines such an entry gives: its own, one CR before the LF dropped and
    the blank ones left out; none when it does not decompress. *)
Definition linesHeld (content : option (list text * text)) : list text :=
  match content with
  | None => []
  | Some (lines, last) =>
      filter (fun line => isBlank line = false)
             (map dropCR lines ++ match last with [] => [] | _ => [dropCR last] end)
  end.

(** What the entries of the sample container hold. *)
Definition sampleContents : list (option (list text * text)) :=
  [Some ([lineC; lineA ++ [CR]; []], []); None; Some ([lineD], lineB)].

(** The commas of a string. *)
Definition commas (s : text) : nat :=
  length (filter (fun c => c = ","%byte) s).

(** The characters [strings.Trim] removes in [parseSignalLines]. *)
Definition cutset : text := [x20; TAB; ","%byte].

(** * Properties *)

(** ** Bytes and the stream primitives *)

Lemma code_range (b : byte) : 0 <= code b < 256.
Proof.
  unfold code. pose proof (Byte.to_N_bounded b). lia.
Qed.

Lemma code_byteOf (z : Z) : 0 <= z < 256 -> code (byteOf z) = z.
Proof.
  intros Hz. unfold code, byteOf.
  pose proof (Byte.to_of_N_option_map (Z.to_N z)) as Hopt.
  destruct (Byte.of_N (Z.to_N z)) as [b|]; simpl in Hopt.
  - destruct (N.leb_spec (Z.to_N z) 255); [|discriminate].
    injection Hopt as ->. lia.
  - destruct (N.leb_spec (Z.to_N z) 255); [discriminate|lia].
Qed.

Lemma beUint16_u16be (n : Z) :
  0 <= n < 65536 ->
  exists hi lo, u16be n = [hi; lo] /\ beUint16 hi lo = n.
Proof.
  intros Hn. exists (byteOf (n / 256)), (byteOf (n mod 256)). split; [done|].
  unfold beUint16. rewrite !code_byteOf.
  - pose proof (Z.div_mod n 256). lia.
  - apply Z.mod_pos_bound. lia.
  - split; [apply Z.div_pos; lia | apply Z.div_lt_upper_bound; lia].
Qed.

Lemma readUint16_u16be (n : Z) (rest : text) (e : Ending) :
  0 <= n < 65536 ->
  readUint16 (mkReader (u16be n ++ rest) e) = Ok (n, mkReader rest e).
Proof.
  intros Hn. destruct (beUint16_u16be n Hn) as (hi & lo & -> & Hv).
  unfold readUint16, ReadFull. simpl. by rewrite Hv.
Qed.

Lemma ReadFull_app (data rest : text) (e : Ending) :
  ReadFull (length data) (mkReader (data ++ rest) e)
  = Ok (data, mkReader rest e).
Proof.
  unfold ReadFull. simpl. rewrite length_app.
  destruct (Nat.leb_spec (length data) (length data + length rest)); [|lia].
  by rewrite take_app_length, drop_app_length.
Qed.

Lemma ReadFull_short (n : nat) (data : text) (e : Ending) :
  (length data < n)%nat ->
  exists cause, ReadFull n (mkReader data e) = Err cause.
Proof.
  intros Hlt. unfold ReadFull. simpl.
  destruct (Nat.leb_spec n (length data)); [lia|]. eauto.
Qed.

Lemma readZlibStr_block (payload rest : text) (e : Ending) :
  fitsUint16 payload ->
  readZlibStr (mkReader (block payload ++ rest) e) = Ok (payload, mkReader rest e).
Proof.
  intros Hfit. unfold readZlibStr, block. rewrite <- app_assoc.
  rewrite readUint16_u16be by (unfold fitsUint16 in Hfit; lia).
  simpl. rewrite Nat2Z.id, ReadFull_app. done.
Qed.

(** A block whose declared length exceeds what is left cannot be read. *)
Lemma readZlibStr_truncated (declared : Z) (partial : text) (e : Ending) :
  0 <= declared < 65536 ->
  Z.of_nat (length partial) < declared ->
  exists cause,
    readZlibStr (mkReader (u16be declared ++ partial) e)
    = Err (DataError declared cause).
Proof.
  intros Hd Hlt. unfold readZlibStr. rewrite readUint16_u16be by done. simpl.
  destruct (ReadFull_short (Z.to_nat declared) partial e) as [cause ->]; [lia|].
  by exists cause.
Qed.

Lemma scanCRLF_peek (line : text) (b0 b1 : byte) (tl : text) (e : Ending) :
  scanCRLF line (b0 :: b1 :: tl) e
  = if bool_decide (b0 = CR) && bool_decide (b1 = LF)
    then Ok (line, mkReader (b0 :: b1 :: tl) e)
    else scanCRLF (line ++ [b0]) (b1 :: tl) e.
Proof. reflexivity. Qed.

Lemma scanCRLF_field (field line rest : text) (e : Ending) :
  hasCRLF field = false ->
  scanCRLF line (field ++ CR :: LF :: rest) e
  = Ok (line ++ field, mkReader (CR :: LF :: rest) e).
Proof.
  revert line. induction field as [|b0 field IH]; intros line Hno.
  - rewrite app_nil_r. reflexivity.
  - destruct field as [|b1 field'].
    + simpl in IH. change ([b0] ++ CR :: LF :: rest) with (b0 :: CR :: LF :: rest).
      rewrite scanCRLF_peek, andb_false_r.
      specialize (IH (line ++ [b0]) eq_refl).
      rewrite app_nil_r in IH. exact IH.
    + simpl in Hno. apply orb_false_iff in Hno as [Hpair Hno].
      change ((b0 :: b1 :: field') ++ CR :: LF :: rest)
        with (b0 :: b1 :: (field' ++ CR :: LF :: rest)).
      rewrite scanCRLF_peek, Hpair.
      change (b1 :: field' ++ CR :: LF :: rest)
        with ((b1 :: field') ++ CR :: LF :: rest).
      rewrite (IH (line ++ [b0])) by done.
      by rewrite <- app_assoc.
Qed.

Lemma readUpToCRLF_field (field rest : text) (e : Ending) :
  hasCRLF field = false ->
  readUpToCRLF (mkReader (field ++ CR :: LF :: rest) e)
  = Ok (field, mkReader (CR :: LF :: rest) e).
Proof.
  intros Hno. unfold readUpToCRLF. simpl. by rewrite scanCRLF_field.
Qed.

Lemma Discard_CRLF (rest : text) (e : Ending) :
  Discard 2 (mkReader (CR :: LF :: rest) e) = Ok (tt, mkReader rest e).
Proof. reflexivity. Qed.

(** Runs the binds of a reader whose first step is known. *)
Ltac step_reader := cbn [orFail mbind result_bind].

Lemma headerField_field (field rest : text) (e : Ending) :
  hasCRLF field = false ->
  headerField (mkReader (field ++ CR :: LF :: rest) e) = Ok (field, mkReader rest e).
Proof.
  intros Hno. unfold headerField. by rewrite readUpToCRLF_field.
Qed.

(** ** The container reader on a container *)

Section ContainerReader.
Context `{GoLibs}.

Lemma linesOf_cons (entry : text) (entries : list text) :
  linesOf (entry :: entries)
  = match decompressZlib entry with
    | Some decompressedData => entryLines decompressedData ++ linesOf entries
    | None => linesOf entries
    end.
Proof.
  unfold linesOf. simpl. by destruct (decompressZlib entry).
Qed.

Lemma anyCorrupt_cons (entry : text) (entries : list text) :
  anyCorrupt (entry :: entries)
  = match decompressZlib entry with
    | Some _ => anyCorrupt entries
    | None => true
    end.
Proof.
  unfold anyCorrupt. simpl. destruct (decompressZlib entry); by simpl.
Qed.

Lemma anyCorrupt_true (entries : list text) :
  anyCorrupt entries = true
  <-> exists entry, entry ∈ entries /\ decompressZlib entry = None.
Proof.
  unfold anyCorrupt. rewrite existsb_exists. split.
  - intros (entry & Hin & Hnone). exists entry.
    split; [by apply list_elem_of_In | by apply bool_decide_eq_true in Hnone].
  - intros (entry & Hin & Hnone). exists entry.
    split; [by apply list_elem_of_In | by apply bool_decide_eq_true].
Qed.

(** The loop reads the blocks it finds one after the other; a corrupt one
    only sets the flag. *)
Lemma readEntries_blocks (entries : list text) (n : nat) :
  forall (i : Z) (allLines : list text) (w : bool) (rest : text) (e : Ending),
    Forall fitsUint16 entries ->
    readEntries (length entries + n) i allLines w
                (mkReader (concat (map block entries) ++ rest) e)
    = readEntries n (i + Z.of_nat (length entries)) (allLines ++ linesOf entries)
                  (w || anyCorrupt entries) (mkReader rest e).
Proof.
  induction entries as [|entry entries IH]; intros i allLines w rest e Hfit.
  - simpl. unfold linesOf, anyCorrupt. simpl.
    by rewrite app_nil_r, orb_false_r, Z.add_0_r.
  - apply Forall_cons in Hfit as [Hentry Hfit].
    change (length (entry :: entries) + n)%nat with (S (length entries + n)).
    change (concat (map block (entry :: entries)))
      with (block entry ++ concat (map block entries)).
    rewrite <- app_assoc. cbn [readEntries].
    rewrite readZlibStr_block by done. step_reader.
    rewrite linesOf_cons, anyCorrupt_cons.
    replace (i + Z.of_nat (length (entry :: entries)))
      with (i + 1 + Z.of_nat (length entries)) by (simpl length; lia).
    destruct (decompressZlib entry) as [decompressedData|].
    + rewrite IH by done. by rewrite <- app_assoc.
    + rewrite IH by done. by rewrite orb_true_r.
Qed.

Lemma readContainer_fields (header serial rest : text) (e : Ending) :
  hasCRLF header = false -> hasCRLF serial = false ->
  readContainer (mkReader (header ++ [CR; LF] ++ serial ++ [CR; LF] ++ rest) e)
  = afterFields (mkReader rest e).
Proof.
  intros Hh Hs. unfold readContainer.
  change ([CR; LF] ++ serial ++ [CR; LF] ++ rest)
    with (CR :: LF :: (serial ++ CR :: LF :: rest)).
  rewrite readUpToCRLF_field by done. step_reader.
  rewrite Discard_CRLF. step_reader.
  rewrite readUpToCRLF_field by done. step_reader.
  rewrite Discard_CRLF. reflexivity.
Qed.

Lemma readContainer_headers (header serial blob rest : text) (e : Ending) :
  hasCRLF header = false -> hasCRLF serial = false -> fitsUint16 blob ->
  readContainer (mkReader (headers header serial blob ++ rest) e)
  = afterHeaders (mkReader rest e).
Proof.
  intros Hh Hs Hb. unfold headers. rewrite <- !app_assoc.
  rewrite readContainer_fields by done. unfold afterFields.
  rewrite readZlibStr_block by done. reflexivity.
Qed.

(** What the reader returns on a well-formed container followed by
    [trailing] bytes. *)
Lemma readContainer_container (header serial blob : text) (entries : list text)
    (trailing : text) (e : Ending) :
  wellFormed header serial blob entries ->
  readContainer (mkReader (container header serial blob entries ++ trailing) e)
  = match trailing, e with
    | _ :: _, _ => Ok (linesOf entries, true)
    | [], CleanEOF => Ok (linesOf entries, anyCorrupt entries)
    | [], ReadFailure => Err (anyCorrupt entries, FailRemaining ErrIO)
    end.
Proof.
  intros [Hh Hs Hb Hc He]. unfold container. rewrite <- !app_assoc.
  rewrite readContainer_headers by done. unfold afterHeaders.
  rewrite readUint16_u16be by lia. step_reader.
  rewrite Nat2Z.id.
  replace (length entries) with (length entries + 0)%nat at 1 by lia.
  rewrite readEntries_blocks by done. cbn [readEntries mbind result_bind].
  destruct trailing as [|b trailing]; [destruct e|]; reflexivity.
Qed.

(** *** Header fields *)

(** C1, as amended.  On a stream that holds a field followed by CR LF,
    [readUpToCRLF] returns the field and leaves the CR LF unread; the
    [Discard(2)] that follows takes exactly those two bytes.  So a header
    field costs its own bytes plus 2, and the next item is read right after
    the CR LF. *)
Theorem header_field_consumption (field rest : text) (e : Ending) :
  hasCRLF field = false ->
  readUpToCRLF (mkReader (field ++ CR :: LF :: rest) e)
  = Ok (field, mkReader (CR :: LF :: rest) e)
  /\ Discard 2 (mkReader (CR :: LF :: rest) e) = Ok (tt, mkReader rest e)
  /\ headerField (mkReader (field ++ CR :: LF :: rest) e) = Ok (field, mkReader rest e)
  /\ consumed headerField (mkReader (field ++ CR :: LF :: rest) e)
     = Some (length field + 2)%nat.
Proof.
  intros Hno. split; [by apply readUpToCRLF_field|]. split; [done|].
  split; [by apply headerField_field|].
  unfold consumed. rewrite headerField_field by done. simpl.
  f_equal. rewrite length_app. simpl. lia.
Qed.

(** *** The serial block *)

(** C2, as amended.  After the two header fields one length-prefixed block
    is read and dropped as it is: the entry count is read from the bytes
    that follow it, and the conversion does not depend on what the block
    holds. *)
Theorem serial_blob_skipped (header serial blob blob' rest : text) (e : Ending)
    (output : Sink) :
  hasCRLF header = false -> hasCRLF serial = false ->
  fitsUint16 blob -> fitsUint16 blob' ->
  readContainer (mkReader (headers header serial blob ++ rest) e)
  = afterHeaders (mkReader rest e)
  /\ processFile (Some (mkReader (headers header serial blob ++ rest) e)) output
     = processFile (Some (mkReader (headers header serial blob' ++ rest) e)) output.
Proof.
  intros Hh Hs Hb Hb'. split; [by apply readContainer_headers|].
  unfold processFile. by rewrite !readContainer_headers.
Qed.

(** *** Truncated blocks *)

(** C7.  A block whose declared length exceeds the bytes left makes
    [processFile] return an error and write nothing, whether it is the
    serial block or an entry, and whatever was read before it. *)
Theorem truncated_block_fatal (header serial blob : text) (entries : list text)
    (count declared : Z) (partial : text) (e : Ending) (output : Sink) :
  hasCRLF header = false -> hasCRLF serial = false ->
  0 <= declared < 65536 -> Z.of_nat (length partial) < declared ->
  (let input := mkReader (header ++ [CR; LF] ++ serial ++ [CR; LF]
                          ++ u16be declared ++ partial) e in
   exists cause,
     processFile (Some input) output
     = mkOutcome false (Some (FailZlibSerial (DataError declared cause))) None)
  /\ (fitsUint16 blob -> Forall fitsUint16 entries ->
      Z.of_nat (length entries) < count < 65536 ->
      let input := mkReader (headers header serial blob ++ u16be count
                             ++ concat (map block entries)
                             ++ u16be declared ++ partial) e in
      exists cause,
        processFile (Some input) output
        = mkOutcome (anyCorrupt entries)
            (Some (FailEntry (Z.of_nat (length entries) + 1)
                             (DataError declared cause))) None).
Proof.
  intros Hh Hs Hd Hlt. split.
  - intros input.
    destruct (readZlibStr_truncated declared partial e Hd Hlt) as [cause Hcause].
    exists cause. unfold processFile, input.
    rewrite readContainer_fields by done. unfold afterFields.
    rewrite Hcause. reflexivity.
  - intros Hb He Hcount input.
    destruct (readZlibStr_truncated declared partial e Hd Hlt) as [cause Hcause].
    exists cause. unfold processFile, input.
    rewrite readContainer_headers by done. unfold afterHeaders.
    rewrite readUint16_u16be by lia. step_reader.
    replace (Z.to_nat count)
      with (length entries + S (Z.to_nat count - length entries - 1))%nat by lia.
    rewrite readEntries_blocks by done. cbn [readEntries].
    rewrite Hcause. reflexivity.
Qed.

(** *** Trailing data *)

(** C8.  After the entries of a well-formed container: when a byte is left,
    the warnings flag is true and the text written is the one written for
    the container alone; at a clean end of file the flag is what the entries
    and the line parser made it; when the read fails otherwise,
    [processFile] returns an error. *)
Theorem trailing_data_check (header serial blob : text) (entries : list text)
    (trailing : text) (e : Ending) (output : Sink) :
  wellFormed header serial blob entries ->
  let whole := container header serial blob entries in
  let parsed := parseSignalLines (linesOf entries) in
  processFile (Some (mkReader whole CleanEOF)) SinkOK
  = mkOutcome (anyCorrupt entries || parsed.2) None
              (Some (concat (writeDBC parsed.1)))
  /\ (trailing <> [] ->
      processFile (Some (mkReader (whole ++ trailing) e)) SinkOK
      = mkOutcome true None
          (written (processFile (Some (mkReader whole CleanEOF)) SinkOK)))
  /\ processFile (Some (mkReader whole ReadFailure)) output
     = mkOutcome (anyCorrupt entries) (Some (FailRemaining ErrIO)) None.
Proof.
  intros Hwf whole parsed.
  pose proof (readContainer_container header serial blob entries [] CleanEOF Hwf)
    as Hclean.
  pose proof (readContainer_container header serial blob entries [] ReadFailure Hwf)
    as Hfail.
  rewrite app_nil_r in Hclean, Hfail. fold whole in Hclean, Hfail.
  assert (processFile (Some (mkReader whole CleanEOF)) SinkOK
          = mkOutcome (anyCorrupt entries || parsed.2) None
                      (Some (concat (writeDBC parsed.1)))) as Hout.
  { unfold processFile. rewrite Hclean. unfold parsed.
    by destruct (parseSignalLines (linesOf entries)). }
  split; [done|]. split.
  - intros Hne. rewrite Hout. unfold processFile, whole.
    rewrite readContainer_container by done.
    destruct trailing as [|b trailing]; [done|]. unfold parsed.
    by destruct (parseSignalLines (linesOf entries)).
  - unfold processFile. by rewrite Hfail.
Qed.

End ContainerReader.

(** ** The line parser *)

Lemma parseDigits_range (maxVal : Z) (s : text) :
  forall n v, parseDigits maxVal n s = (v, None) ->
              0 <= n <= maxVal -> 0 <= v <= maxVal.
Proof.
  induction s as [|c s IH]; intros n v Hparse Hn.
  - simpl in Hparse. by injection Hparse as <-.
  - simpl in Hparse.
    destruct (negb (isDigit c)); [discriminate|].
    destruct ((2 ^ 64 - 1) / 10 + 1 <=? n); [discriminate|].
    set (n1 := (n * 10 + (code c - 48)) mod 2 ^ 64) in *.
    destruct (n1 <? n * 10) eqn:Hwrap; [discriminate|].
    destruct (maxVal <? n1) eqn:Hmax; [discriminate|]. simpl in Hparse.
    apply (IH n1 v Hparse). lia.
Qed.

Lemma ParseUint_uint32 (s : text) (v : Z) :
  ParseUint s 32 = (v, None) -> uint32 v = v.
Proof.
  unfold ParseUint, uint32. destruct s as [|c s]; [discriminate|].
  intros Hparse. apply parseDigits_range in Hparse; [|lia].
  apply Z.mod_small. lia.
Qed.

(** A character that is not a digit makes [ParseUint] fail. *)
Lemma parseDigits_non_digit (maxVal : Z) (s : text) :
  forall n, (exists c, c ∈ s /\ isDigit c = false) ->
            (parseDigits maxVal n s).2 <> None.
Proof.
  induction s as [|c s IH]; intros n (c' & Hin & Hc').
  - by apply elem_of_nil in Hin.
  - simpl. destruct (isDigit c) eqn:Hc; simpl; [|done].
    destruct ((2 ^ 64 - 1) / 10 + 1 <=? n); [done|].
    destruct (_ || _); [done|].
    apply IH. exists c'. apply elem_of_cons in Hin as [->|Hin]; [congruence|done].
Qed.

(** Digits whose value is past [maxVal] make [ParseUint] fail. *)
Lemma parseDigits_too_large (maxVal : Z) (s : text) :
  forall n, forallb isDigit s = true -> 0 <= n <= maxVal -> maxVal < 2 ^ 64 ->
            maxVal < fold_left (fun n c => n * 10 + (code c - 48)) s n ->
            (parseDigits maxVal n s).2 <> None.
Proof.
  induction s as [|c s IH]; intros n Hdigits Hn Hmax Hbig.
  - simpl in Hbig. lia.
  - simpl in Hdigits. apply andb_true_iff in Hdigits as [Hc Hdigits].
    cbn [parseDigits]. rewrite Hc. cbn [negb].
    destruct (Z.leb_spec ((2 ^ 64 - 1) / 10 + 1) n) as [Hcut|Hcut]; [done|].
    unfold isDigit in Hc. apply andb_true_iff in Hc as [Hlo%Z.leb_le Hhi%Z.leb_le].
    change ((2 ^ 64 - 1) / 10 + 1) with 1844674407370955162 in Hcut.
    destruct (Z.lt_ge_cases (n * 10 + (code c - 48)) (2 ^ 64)) as [Hfit|Hover].
    + rewrite Z.mod_small by lia.
      destruct (Z.ltb_spec (n * 10 + (code c - 48)) (n * 10)) as [Hw|Hw];
        [done|]. simpl.
      destruct (Z.ltb_spec maxVal (n * 10 + (code c - 48))) as [Hm|Hm]; [done|].
      apply IH; try done. lia.
    + replace (n * 10 + (code c - 48))
        with (n * 10 + (code c - 48) - 2 ^ 64 + 1 * 2 ^ 64) by lia.
      rewrite Z_mod_plus_full.
      change (2 ^ 64) with 18446744073709551616 in *.
      rewrite Z.mod_small by lia.
      destruct (Z.ltb_spec (n * 10 + (code c - 48) - 18446744073709551616) (n * 10))
        as [Hw|Hw]; [done|lia].
Qed.

Section LineParser.
Context `{GoLibs}.

Lemma parseLine_skipped (st : gmap Z Message * bool) (line : text) :
  lineKey line = None -> parseLine st line = (st.1, true).
Proof.
  unfold lineKey, parseLine. destruct st as [messages w].
  destruct (length (fields line) <? 11)%nat; [done|].
  destruct (ParseUint (nth 1 (fields line) []) 32) as [msgID [e|]]; done.
Qed.

Lemma parseLine_accepted (st : gmap Z Message * bool) (line : text) (id : Z) :
  lineKey line = Some id ->
  parseLine st line
  = (alter (appendSignal (lineSignal line)) id (upsert id (lineDLC line) st.1),
     st.2 || dlcAssumed line).
Proof.
  unfold lineKey, parseLine, lineDLC, dlcAssumed, lineSignal, upsert, newMessage.
  destruct st as [messages w].
  destruct (length (fields line) <? 11)%nat; [done|].
  destruct (ParseUint (nth 1 (fields line) []) 32) as [msgID [e|]] eqn:Hid;
    [done|].
  intros [= <-]. rewrite (ParseUint_uint32 _ _ Hid).
  destruct (12 <=? length (fields line))%nat.
  - destruct (Atoi (nth 11 (fields line) [])) as [dlc [e|]]; simpl.
    + by rewrite orb_true_r.
    + by rewrite orb_false_r.
  - simpl. by rewrite orb_true_r.
Qed.

Lemma parseLine_lookup (st : gmap Z Message * bool) (line : text) (id : Z) :
  (parseLine st line).1 !! id = absorb id (st.1 !! id) line.
Proof.
  unfold absorb. destruct (lineKey line) as [key|] eqn:Hkey.
  - rewrite (parseLine_accepted _ _ _ Hkey). simpl. unfold upsert.
    destruct (decide (Some key = Some id)) as [[= ->]|Hne].
    + rewrite lookup_alter_eq.
      destruct (st.1 !! id) as [m|] eqn:Hm.
      * destruct (DLC m <? lineDLC line).
        -- by rewrite lookup_insert_eq.
        -- by rewrite Hm.
      * by rewrite lookup_insert_eq.
    + assert (key <> id) by congruence.
      rewrite lookup_alter_ne by done.
      destruct (st.1 !! key) as [m|].
      * destruct (DLC m <? lineDLC line); [by rewrite lookup_insert_ne|done].
      * by rewrite lookup_insert_ne.
  - rewrite parseLine_skipped by done.
    by destruct (decide (None = Some id)).
Qed.

Lemma fold_parseLine_lookup (lines : list text) (id : Z) :
  forall st, (fold_left parseLine lines st).1 !! id
             = fold_left (absorb id) lines (st.1 !! id).
Proof.
  induction lines as [|line lines IH]; intros st; [done|].
  simpl. by rewrite IH, parseLine_lookup.
Qed.

Lemma linesFor_cons (id : Z) (line : text) (lines : list text) :
  linesFor id (line :: lines)
  = if decide (lineKey line = Some id) then line :: linesFor id lines
    else linesFor id lines.
Proof. unfold linesFor. by rewrite filter_cons. Qed.

Lemma absorb_existing (id : Z) (lines : list text) :
  forall m, fold_left (absorb id) lines (Some m)
            = Some (mkMessage (ID m) (MsgName m)
                      (fold_left Z.max (map lineDLC (linesFor id lines)) (DLC m))
                      (Node m)
                      (Signals m ++ map lineSignal (linesFor id lines))).
Proof.
  induction lines as [|line lines IH]; intros m.
  - simpl. rewrite app_nil_r. by destruct m.
  - rewrite linesFor_cons. simpl. unfold absorb at 2.
    destruct (decide (lineKey line = Some id)) as [Hkey|Hkey]; [|apply IH].
    rewrite IH. simpl. f_equal.
    destruct (Z.ltb_spec (DLC m) (lineDLC line)) as [Hlt|Hge]; simpl.
    + rewrite Z.max_r by lia. by rewrite <- app_assoc.
    + rewrite Z.max_l by lia. by rewrite <- app_assoc.
Qed.

Lemma absorb_fresh (id : Z) (lines : list text) :
  fold_left (absorb id) lines None = built id lines.
Proof.
  unfold built. induction lines as [|line lines IH]; [done|].
  rewrite linesFor_cons. simpl. unfold absorb at 2.
  destruct (decide (lineKey line = Some id)) as [Hkey|Hkey]; [|apply IH].
  by rewrite absorb_existing.
Qed.

(** The message found under each key after all lines are parsed. *)
Lemma parseSignalLines_lookup (lines : list text) (id : Z) :
  (parseSignalLines lines).1 !! id = built id lines.
Proof.
  unfold parseSignalLines. rewrite fold_parseLine_lookup. simpl.
  rewrite lookup_empty. apply absorb_fresh.
Qed.

Lemma fold_max_spec (l : list Z) :
  forall a, let r := fold_left Z.max l a in
            (r = a \/ r ∈ l) /\ a <= r /\ (forall x, x ∈ l -> x <= r).
Proof.
  induction l as [|y l IH]; intros a; simpl.
  - split; [by left|]. split; [lia|]. intros x Hx. by apply elem_of_nil in Hx.
  - destruct (IH (Z.max a y)) as (Hin & Hle & Hall).
    split; [|split].
    + destruct Hin as [Heq|Hin].
      * rewrite Heq. destruct (Z.max_spec a y) as [[_ ->]|[_ ->]];
          [right; apply list_elem_of_here | by left].
      * right. by apply list_elem_of_further.
    + lia.
    + intros x [->|Hx]%elem_of_cons; [lia | by apply Hall].
Qed.

(** What [built] says about the DLC: it is the largest one among the lines
    of the message. *)
Lemma built_dlc (id : Z) (lines : list text) (m : Message) :
  built id lines = Some m ->
  ID m = id
  /\ DLC m ∈ map lineDLC (linesFor id lines)
  /\ (forall d, d ∈ map lineDLC (linesFor id lines) -> d <= DLC m).
Proof.
  unfold built. destruct (linesFor id lines) as [|first others]; [done|].
  intros [= <-]. simpl.
  destruct (fold_max_spec (map lineDLC others) (lineDLC first)) as (Hin & Hle & Hall).
  split; [done|]. split.
  - destruct Hin as [->|Hin]; [apply list_elem_of_here | by apply list_elem_of_further].
  - intros d [->|Hd]%elem_of_cons; [done | by apply Hall].
Qed.

Lemma built_is_Some (id : Z) (lines : list text) :
  linesFor id lines <> [] -> is_Some (built id lines).
Proof.
  unfold built. destruct (linesFor id lines); [done | eauto].
Qed.

(** *** The DLC of a message *)

(** C4.  When some lines go to the message [id], the builder yields one
    message for it, under the key [id] and under no other; its DLC is one
    of the DLCs of those lines and at least each of them, so it is their
    maximum; and it is the same for every reordering of the lines. *)
Theorem dlc_is_maximum (lines : list text) (id : Z) :
  linesFor id lines <> [] ->
  let dlcs := map lineDLC (linesFor id lines) in
  exists m,
    (parseSignalLines lines).1 !! id = Some m
    /\ ID m = id
    /\ (forall key m', (parseSignalLines lines).1 !! key = Some m' ->
                       ID m' = id -> key = id)
    /\ DLC m ∈ dlcs
    /\ (forall d, d ∈ dlcs -> d <= DLC m)
    /\ (forall lines', lines' ≡ₚ lines ->
                       DLC <$> (parseSignalLines lines').1 !! id = Some (DLC m)).
Proof.
  intros Hsome dlcs.
  destruct (built_is_Some id lines Hsome) as [m Hm]. exists m.
  destruct (built_dlc id lines m Hm) as (Hid & Hin & Hall).
  split; [by rewrite parseSignalLines_lookup|]. split; [done|].
  split; [|split; [done|split; [done|]]].
  - intros key m' Hlook Hid'. rewrite parseSignalLines_lookup in Hlook.
    apply built_dlc in Hlook as (Hkey & _). congruence.
  - intros lines' Hperm. rewrite parseSignalLines_lookup.
    assert (linesFor id lines' ≡ₚ linesFor id lines) as Hfor
      by (unfold linesFor; by rewrite Hperm).
    assert (linesFor id lines' <> []) as Hsome'.
    { intros Hnil. rewrite Hnil in Hfor. by apply Permutation_nil_l in Hfor. }
    destruct (built_is_Some id lines' Hsome') as [m' Hm']. rewrite Hm'. simpl.
    destruct (built_dlc id lines' m' Hm') as (_ & Hin' & Hall').
    assert (forall d, d ∈ map lineDLC (linesFor id lines')
                      <-> d ∈ map lineDLC (linesFor id lines)) as Hsame
      by (intros d; by rewrite Hfor).
    f_equal. apply Hsame in Hin'. apply Hsame in Hin.
    specialize (Hall _ Hin'). specialize (Hall' _ Hin). lia.
Qed.

(** *** Signal names *)

Lemma names_lineSignal (ls : list text) :
  map Name (map lineSignal ls) = map (fun line => nth 0 (fields line) []) ls.
Proof.
  induction ls as [|l ls IH]; [done|]. simpl. by rewrite IH.
Qed.

(** C9, as amended.  The names of the signals of a message are the first
    fields of its lines, in input order, repeated when the input repeats
    them: they are pairwise distinct exactly when those fields are. *)
Theorem signal_names_follow_input (lines : list text) (id : Z) (m : Message) :
  (parseSignalLines lines).1 !! id = Some m ->
  let names := map (fun line => nth 0 (fields line) []) (linesFor id lines) in
  map Name (Signals m) = names
  /\ (NoDup (map Name (Signals m)) <-> NoDup names).
Proof.
  intros Hlook names. rewrite parseSignalLines_lookup in Hlook.
  assert (map Name (Signals m) = names) as Heq.
  { unfold built in Hlook. unfold names.
    destruct (linesFor id lines) as [|first others]; [done|].
    injection Hlook as <-. cbn [Signals]. apply (names_lineSignal (first :: others)). }
  split; [done | by rewrite Heq].
Qed.

(** *** Message IDs [ParseUint] refuses *)

(** C10.  A line whose message-ID field holds a character that is not a
    digit (a sign included), or digits whose value is past 4294967295, is
    skipped with a warning: the map of messages is left as it was and the
    flag is set. *)
Theorem bad_message_id_skipped (st : gmap Z Message * bool) (line : text) :
  let idField := nth 1 (fields line) [] in
  (exists c, c ∈ idField /\ isDigit c = false)
  \/ (forallb isDigit idField = true /\ 4294967295 < decimalValue idField) ->
  parseLine st line = (st.1, true).
Proof.
  intros idField Hbad. apply parseLine_skipped.
  unfold lineKey. destruct (length (fields line) <? 11)%nat; [done|].
  fold idField.
  assert ((ParseUint idField 32).2 <> None) as Herr.
  { unfold ParseUint. destruct Hbad as [Hnon|[Hdigits Hbig]].
    - destruct idField as [|c s] eqn:Hfield.
      + destruct Hnon as (c & Hin & _). by apply elem_of_nil in Hin.
      + by apply parseDigits_non_digit.
    - destruct idField as [|c s] eqn:Hfield; [done|].
      by apply parseDigits_too_large. }
  destruct (ParseUint idField 32) as [msgID [e|]]; done.
Qed.

End LineParser.

(** ** The serializer *)

Lemma insertSorted_perm (less : Z -> Z -> bool) (x : Z) (l : list Z) :
  insertSorted less x l ≡ₚ x :: l.
Proof.
  induction l as [|y l IH]; [done|]. simpl.
  destruct (less x y); [done|]. rewrite IH. apply perm_swap.
Qed.

Lemma sortSlice_perm (less : Z -> Z -> bool) (l : list Z) :
  sortSlice less l ≡ₚ l.
Proof.
  induction l as [|x l IH]; [done|]. simpl.
  rewrite insertSorted_perm. by rewrite IH.
Qed.

Lemma insertSorted_sorted (x : Z) (l : list Z) :
  StronglySorted Z.le l -> StronglySorted Z.le (insertSorted Z.ltb x l).
Proof.
  induction l as [|y l IH]; intros Hsorted; simpl.
  - apply SSorted_cons; [constructor | constructor].
  - apply StronglySorted_inv in Hsorted as [Hl Hy].
    destruct (Z.ltb_spec x y) as [Hlt|Hge].
    + apply SSorted_cons; [by apply SSorted_cons|].
      constructor; [lia|]. eapply Forall_impl; [exact Hy|]. simpl. lia.
    + apply SSorted_cons; [by apply IH|].
      rewrite insertSorted_perm. by constructor.
Qed.

Lemma sortSlice_sorted (l : list Z) : StronglySorted Z.le (sortSlice Z.ltb l).
Proof.
  induction l as [|x l IH]; [constructor|]. simpl. by apply insertSorted_sorted.
Qed.

Lemma sorted_NoDup_strict (l : list Z) :
  StronglySorted Z.le l -> NoDup l -> StronglySorted Z.lt l.
Proof.
  induction l as [|x l IH]; intros Hsorted Hnodup; [constructor|].
  apply StronglySorted_inv in Hsorted as [Hl Hx].
  apply NoDup_cons in Hnodup as [Hnot Hnodup].
  apply SSorted_cons; [by apply IH|].
  rewrite Forall_forall in Hx |- *. intros y Hy.
  assert (x <> y) by (intros ->; by apply Hnot, list_elem_of_In).
  specialize (Hx y Hy). lia.
Qed.

(** The sorted slice does not depend on the order the keys come in. *)
Lemma sortSlice_order (l1 l2 : list Z) :
  l1 ≡ₚ l2 -> sortSlice Z.ltb l1 = sortSlice Z.ltb l2.
Proof.
  intros Hperm. apply (StronglySorted_unique Z.le).
  - apply sortSlice_sorted.
  - apply sortSlice_sorted.
  - by rewrite !sortSlice_perm.
Qed.

Section Serializer.
Context `{GoLibs}.

Lemma messageBlock_omap (messages : gmap Z Message) (ids : list Z) :
  concat (map (messageBlock messages) ids)
  = concat (map frameBlock (omap (fun id => messages !! id) ids)).
Proof.
  induction ids as [|id ids IH]; [done|]. simpl. unfold messageBlock at 1.
  destruct (messages !! id) as [msg|]; simpl; by rewrite IH.
Qed.

Lemma isFrameLine_frameLine (msg : Message) : isFrameLine (frameLine msg) = true.
Proof. reflexivity. Qed.

Lemma isFrameLine_signalLine (sig : Signal) : isFrameLine (signalLine sig) = false.
Proof. reflexivity. Qed.

Lemma frames_of_block (msg : Message) :
  List.filter isFrameLine (frameBlock msg) = [frameLine msg].
Proof.
  unfold frameBlock. cbn [List.filter]. rewrite isFrameLine_frameLine. f_equal.
  rewrite List.filter_app. cbn [List.filter].
  induction (Signals msg) as [|sig sigs IH]; [done|].
  cbn [map List.filter]. by rewrite isFrameLine_signalLine.
Qed.

Lemma frames_of_blocks (msgs : list Message) :
  List.filter isFrameLine (concat (map frameBlock msgs)) = map frameLine msgs.
Proof.
  induction msgs as [|msg msgs IH]; [done|].
  cbn [map concat]. by rewrite List.filter_app, frames_of_block, IH.
Qed.

Lemma lookup_all_keys (messages : gmap Z Message) :
  omap (fun id => messages !! id) (fst <$> map_to_list messages)
  = snd <$> map_to_list messages.
Proof.
  assert (Forall (fun kv => messages !! kv.1 = Some kv.2) (map_to_list messages))
    as Hall.
  { apply Forall_forall. intros [k v] Hin. by apply elem_of_map_to_list. }
  induction (map_to_list messages) as [|[k v] l IH]; [done|].
  apply Forall_cons in Hall as [Hkv Hall]. simpl in Hkv.
  rewrite !fmap_cons. cbn [omap list_omap fst snd]. rewrite Hkv.
  f_equal. by apply IH.
Qed.

Lemma lookup_keyed (messages : gmap Z Message) (ids : list Z) :
  (forall key m, messages !! key = Some m -> ID m = key) ->
  (forall id, id ∈ ids -> is_Some (messages !! id)) ->
  ID <$> omap (fun id => messages !! id) ids = ids.
Proof.
  intros Hkeyed. induction ids as [|id ids IH]; intros Hall; [done|].
  destruct (Hall id) as [m Hm]; [apply list_elem_of_here|].
  cbn [omap list_omap]. rewrite Hm, fmap_cons, (Hkeyed _ _ Hm). f_equal.
  apply IH. intros id' Hin. apply Hall. by apply list_elem_of_further.
Qed.

(** *** Frame order *)

(** C5.  Let the map be keyed by message ID, and let [range] yield its keys
    in any order.  Then the writes are the preamble followed by one block
    per message of the map, the frame lines among them are the frame lines
    of those messages, one each, and their IDs ascend strictly as numbers;
    the text is the same whatever the order of the keys was. *)
Theorem frames_ascending (messages : gmap Z Message) (keys : list Z) :
  keys ≡ₚ fst <$> map_to_list messages ->
  (forall key m, messages !! key = Some m -> ID m = key) ->
  exists msgs,
    writeDBCFrom keys messages = preamble ++ concat (map frameBlock msgs)
    /\ List.filter isFrameLine (writeDBCFrom keys messages) = map frameLine msgs
    /\ msgs ≡ₚ snd <$> map_to_list messages
    /\ StronglySorted Z.lt (ID <$> msgs)
    /\ writeDBCFrom keys messages = writeDBC messages.
Proof.
  intros Hperm Hkeyed.
  set (ids := sortSlice Z.ltb keys).
  exists (omap (fun id => messages !! id) ids).
  assert (ids ≡ₚ fst <$> map_to_list messages) as Hids
    by (unfold ids; by rewrite sortSlice_perm).
  assert (writeDBCFrom keys messages
          = preamble ++ concat (map frameBlock (omap (fun id => messages !! id) ids)))
    as Hout by (unfold writeDBCFrom; by rewrite messageBlock_omap).
  split; [done|]. split; [|split; [|split]].
  - rewrite Hout, List.filter_app, frames_of_blocks. reflexivity.
  - rewrite Hids. by rewrite lookup_all_keys.
  - rewrite lookup_keyed; [|done|].
    + apply sorted_NoDup_strict; [apply sortSlice_sorted|].
      rewrite Hids. apply NoDup_fst_map_to_list.
    + intros id Hin. rewrite Hids in Hin.
      apply list_elem_of_fmap in Hin as ([k v] & -> & Hin).
      apply elem_of_map_to_list in Hin. by exists v.
  - unfold writeDBC, writeDBCFrom. by rewrite (sortSlice_order _ _ Hperm).
Qed.

(** The line parser keys every message by its ID. *)
Lemma parseSignalLines_keyed (lines : list text) (key : Z) (m : Message) :
  (parseSignalLines lines).1 !! key = Some m -> ID m = key.
Proof.
  rewrite parseSignalLines_lookup. intros Hbuilt.
  by apply built_dlc in Hbuilt as (Hid & _).
Qed.

End Serializer.

(** * Concrete containers and lines *)

Lemma sample_wellFormed :
  wellFormed (str "RACELOGIC") (str "SN0042") (str "not zlib") sampleEntries.
Proof.
  split; try reflexivity. repeat constructor.
Qed.

Example sample_lines :
  @readContainer storedOnly (mkReader sampleContainer CleanEOF)
  = Ok ([lineC; lineA; lineD; lineB], true).
Proof. vm_compute. reflexivity. Qed.

(** ** Header fields *)

(** C1, as stated, fails: on a field followed by CR LF, two more bytes and
    the next item, the two steps taken for a header field stop right after
    the CR LF; the two bytes that follow stay unread, and 3 bytes are
    consumed for a field of 1, not 5.  A container laid out with two such
    bytes after each CR LF is not read through: [XY] is taken for the length
    of the serial block. *)
Lemma header_field_four_bytes_counterexample :
  headerField (mkReader (str "H" ++ [CR; LF] ++ str "XY" ++ str "next") CleanEOF)
  = Ok (str "H", mkReader (str "XY" ++ str "next") CleanEOF)
  /\ consumed headerField
       (mkReader (str "H" ++ [CR; LF] ++ str "XY" ++ str "next") CleanEOF)
     <> Some (length (str "H") + 4)%nat
  /\ (forall L : GoLibs,
        err (processFile
               (Some (mkReader (str "H" ++ [CR; LF] ++ str "XY"
                                ++ str "S" ++ [CR; LF] ++ str "XY"
                                ++ block (str "blob") ++ u16be 0) CleanEOF))
               SinkOK)
        = Some (FailZlibSerial (DataError 22617 ErrUnexpectedEOF))).
Proof.
  split; [reflexivity|]. split; [vm_compute; discriminate|].
  intros L. reflexivity.
Qed.

Lemma header_field_consumption_witness :
  hasCRLF (str "RACELOGIC") = false
  /\ readUpToCRLF (mkReader (str "RACELOGIC" ++ CR :: LF :: str "SN0042") CleanEOF)
     = Ok (str "RACELOGIC", mkReader (CR :: LF :: str "SN0042") CleanEOF)
  /\ Discard 2 (mkReader (CR :: LF :: str "SN0042") CleanEOF)
     = Ok (tt, mkReader (str "SN0042") CleanEOF)
  /\ headerField (mkReader (str "RACELOGIC" ++ CR :: LF :: str "SN0042") CleanEOF)
     = Ok (str "RACELOGIC", mkReader (str "SN0042") CleanEOF)
  /\ consumed headerField
       (mkReader (str "RACELOGIC" ++ CR :: LF :: str "SN0042") CleanEOF)
     = Some (length (str "RACELOGIC") + 2)%nat.
Proof.
  split; [reflexivity|].
  apply (header_field_consumption (str "RACELOGIC") (str "SN0042") CleanEOF).
  reflexivity.
Defined.

(** ** The serial block *)

(** C2, as stated, fails: whatever the libraries do, the serial block of
    this container is not a zlib stream (its first byte is not a DEFLATE
    header), and the conversion ends without an error and without a
    warning. *)
Lemma serial_blob_decompressed_counterexample :
  ~ exists L : GoLibs,
      let outcome :=
        processFile
          (Some (mkReader (headers (str "RACELOGIC") (str "SN0042") (str "not zlib")
                           ++ u16be 0) CleanEOF)) SinkOK in
      decompressZlib (str "not zlib") = None ->
      err outcome <> None \/ hasWarnings outcome = true.
Proof.
  intros [L Hclaim]. destruct (Hclaim eq_refl) as [Herr|Hwarn].
  - by apply Herr.
  - vm_compute in Hwarn. discriminate.
Qed.

Lemma serial_blob_skipped_witness :
  hasCRLF (str "RACELOGIC") = false /\ hasCRLF (str "SN0042") = false
  /\ fitsUint16 (str "not zlib") /\ fitsUint16 (zlibStore (str "SN0042"))
  /\ @readContainer storedOnly
       (mkReader (headers (str "RACELOGIC") (str "SN0042") (str "not zlib")
                  ++ u16be 0) CleanEOF)
     = @afterHeaders storedOnly (mkReader (u16be 0) CleanEOF)
  /\ @processFile storedOnly
       (Some (mkReader (headers (str "RACELOGIC") (str "SN0042") (str "not zlib")
                        ++ u16be 0) CleanEOF)) SinkOK
     = @processFile storedOnly
         (Some (mkReader (headers (str "RACELOGIC") (str "SN0042")
                                  (zlibStore (str "SN0042"))
                          ++ u16be 0) CleanEOF)) SinkOK.
Proof.
  split; [reflexivity|]. split; [reflexivity|].
  split; [reflexivity|]. split; [reflexivity|].
  apply (@serial_blob_skipped storedOnly); reflexivity.
Defined.

(** ** Truncated blocks *)

Lemma truncated_block_fatal_witness :
  let input1 := mkReader (str "RACELOGIC" ++ [CR; LF] ++ str "SN0042" ++ [CR; LF]
                          ++ u16be 8 ++ str "not") CleanEOF in
  let input2 := mkReader (headers (str "RACELOGIC") (str "SN0042") (str "not zlib")
                          ++ u16be 3 ++ concat (map block (take 2 sampleEntries))
                          ++ u16be 8 ++ str "not") CleanEOF in
  (exists cause,
     @processFile storedOnly (Some input1) SinkOK
     = mkOutcome false (Some (FailZlibSerial (DataError 8 cause))) None)
  /\ (exists cause,
        @processFile storedOnly (Some input2) SinkOK
        = mkOutcome (@anyCorrupt storedOnly (take 2 sampleEntries))
            (Some (FailEntry (Z.of_nat (length (take 2 sampleEntries)) + 1)
                             (DataError 8 cause))) None).
Proof.
  intros input1 input2.
  destruct (@truncated_block_fatal storedOnly (str "RACELOGIC") (str "SN0042")
              (str "not zlib") (take 2 sampleEntries) 3 8 (str "not") CleanEOF SinkOK)
    as [Hserial Hentry]; [reflexivity | reflexivity | lia | simpl; lia |].
  split; [exact Hserial|].
  apply Hentry; [reflexivity | repeat constructor | simpl; lia].
Defined.

(** ** Trailing data *)

Lemma trailing_data_check_witness :
  let whole := sampleContainer in
  let parsed := @parseSignalLines storedOnly (@linesOf storedOnly sampleEntries) in
  @processFile storedOnly (Some (mkReader whole CleanEOF)) SinkOK
  = mkOutcome (@anyCorrupt storedOnly sampleEntries || parsed.2) None
              (Some (concat (writeDBC parsed.1)))
  /\ ([x00] <> [] ->
      @processFile storedOnly (Some (mkReader (whole ++ [x00]) CleanEOF)) SinkOK
      = mkOutcome true None
          (written (@processFile storedOnly (Some (mkReader whole CleanEOF)) SinkOK)))
  /\ @processFile storedOnly (Some (mkReader whole ReadFailure)) SinkOK
     = mkOutcome (@anyCorrupt storedOnly sampleEntries) (Some (FailRemaining ErrIO)) None.
Proof.
  exact (@trailing_data_check storedOnly _ _ _ _ [x00] CleanEOF SinkOK
           sample_wellFormed).
Defined.

(** ** The DLC of a message *)

Lemma dlc_is_maximum_witness :
  linesFor 256 [lineC; lineB; lineD; lineA] <> []
  /\ (let dlcs := map lineDLC (linesFor 256 [lineC; lineB; lineD; lineA]) in
      exists m,
        (@parseSignalLines storedOnly [lineC; lineB; lineD; lineA]).1 !! 256 = Some m
        /\ ID m = 256
        /\ (forall key m',
              (@parseSignalLines storedOnly [lineC; lineB; lineD; lineA]).1 !! key
              = Some m' -> ID m' = 256 -> key = 256)
        /\ DLC m ∈ dlcs
        /\ (forall d, d ∈ dlcs -> d <= DLC m)
        /\ (forall lines', lines' ≡ₚ [lineC; lineB; lineD; lineA] ->
                           DLC <$> (@parseSignalLines storedOnly lines').1 !! 256
                           = Some (DLC m))).
Proof.
  assert (linesFor 256 [lineC; lineB; lineD; lineA] <> []) as Hsome
    by (vm_compute; discriminate).
  split; [exact Hsome|].
  exact (@dlc_is_maximum storedOnly [lineC; lineB; lineD; lineA] 256 Hsome).
Defined.

(** DLCs 8 and 3 in either order give 8. *)
Example dlc_8_3_either_order :
  @DLC storedOnly <$> (parseSignalLines [lineA; lineB]).1 !! 256 = Some 8
  /\ @DLC storedOnly <$> (parseSignalLines [lineB; lineA]).1 !! 256 = Some 8.
Proof. split; vm_compute; reflexivity. Qed.

(** ** Signal names *)

(** C9, as stated, fails: whatever the libraries do, two lines that give
    the same name for the same message yield two signals of that name. *)
Lemma signal_names_unique_counterexample :
  ~ exists L : GoLibs,
      forall (lines : list text) (id : Z) (m : Message),
        (parseSignalLines lines).1 !! id = Some m ->
        NoDup (map Name (Signals m)).
Proof.
  intros [L Hclaim].
  pose proof (parseSignalLines_lookup [lineA; lineA] 256) as Hlook.
  specialize (Hclaim [lineA; lineA] 256 _ Hlook).
  cbn [Signals] in Hclaim. rewrite names_lineSignal in Hclaim.
  vm_compute in Hclaim. apply NoDup_cons in Hclaim as [Hnot _].
  apply Hnot, list_elem_of_here.
Qed.

Lemma signal_names_follow_input_witness :
  (exists m,
      (@parseSignalLines storedOnly [lineA; lineC; lineA]).1 !! 256 = Some m
      /\ let names := map (fun line => nth 0 (fields line) [])
                          (linesFor 256 [lineA; lineC; lineA]) in
         map Name (Signals m) = names
         /\ (NoDup (map Name (Signals m)) <-> NoDup names)).
Proof.
  destruct (@built_is_Some storedOnly 256 [lineA; lineC; lineA]) as [m Hm];
    [vm_compute; discriminate|].
  rewrite <- parseSignalLines_lookup in Hm.
  exists m. split; [exact Hm|].
  exact (@signal_names_follow_input storedOnly [lineA; lineC; lineA] 256 m Hm).
Defined.

(** ** Message IDs [ParseUint] refuses *)

Lemma bad_message_id_skipped_witness :
  (let idField := nth 1 (fields lineBigID) [] in
   (exists c, c ∈ idField /\ isDigit c = false)
   \/ (forallb isDigit idField = true /\ 4294967295 < decimalValue idField))
  /\ @parseLine storedOnly (sampleMessages, false) lineBigID = (sampleMessages, true).
Proof.
  assert (let idField := nth 1 (fields lineBigID) [] in
          (exists c, c ∈ idField /\ isDigit c = false)
          \/ (forallb isDigit idField = true /\ 4294967295 < decimalValue idField))
    as Hbad by (right; split; reflexivity).
  split; [exact Hbad|].
  exact (@bad_message_id_skipped storedOnly (sampleMessages, false) lineBigID Hbad).
Defined.

Example signed_id_skipped :
  @parseLine storedOnly (sampleMessages, false) lineSignedID = (sampleMessages, true).
Proof.
  apply parseLine_skipped. reflexivity.
Qed.

(** ** Frame order *)

Lemma frames_ascending_witness :
  [1000; 20; 256] ≡ₚ fst <$> map_to_list sampleMessages
  /\ (forall key m, sampleMessages !! key = Some m -> ID m = key)
  /\ exists msgs,
       writeDBCFrom [1000; 20; 256] sampleMessages
       = preamble ++ concat (map frameBlock msgs)
       /\ List.filter isFrameLine (writeDBCFrom [1000; 20; 256] sampleMessages)
          = map frameLine msgs
       /\ msgs ≡ₚ snd <$> map_to_list sampleMessages
       /\ StronglySorted Z.lt (ID <$> msgs)
       /\ writeDBCFrom [1000; 20; 256] sampleMessages = writeDBC sampleMessages.
Proof.
  assert ([1000; 20; 256] ≡ₚ fst <$> map_to_list sampleMessages) as Hperm.
  { vm_compute. apply perm_swap. }
  assert (forall key m, sampleMessages !! key = Some m -> ID m = key) as Hkeyed
    by apply parseSignalLines_keyed.
  split; [exact Hperm|]. split; [exact Hkeyed|].
  exact (@frames_ascending storedOnly sampleMessages [1000; 20; 256] Hperm Hkeyed).
Defined.

(** The frame lines of the sample, in the order they are written: 20, 256,
    1000, where the order of the strings would be 1000, 20, 256. *)
Example sample_frames :
  List.filter isFrameLine (writeDBC sampleMessages)
  = [ str "BO_ 20 CAN_MSG_20: 2 VECTOR__XXX" ++ [LF];
      str "BO_ 256 CAN_MSG_256: 8 VECTOR__XXX" ++ [LF];
      str "BO_ 1000 CAN_MSG_1000: 8 VECTOR__XXX" ++ [LF] ].
Proof. vm_compute. reflexivity. Qed.

(** * Further properties of the container reader *)

Lemma hasCRLF_split (bytes : text) :
  hasCRLF bytes = true ->
  exists field rest, bytes = field ++ CR :: LF :: rest /\ hasCRLF field = false.
Proof.
  induction bytes as [|b0 bytes IH]; [done|].
  destruct bytes as [|b1 bytes]; [done|].
  intros Hhas.
  destruct (bool_decide (b0 = CR) && bool_decide (b1 = LF)) eqn:Hpair.
  - apply andb_true_iff in Hpair as [->%bool_decide_eq_true ->%bool_decide_eq_true].
    by exists [], bytes.
  - change (hasCRLF (b0 :: b1 :: bytes))
      with ((bool_decide (b0 = CR) && bool_decide (b1 = LF)) || hasCRLF (b1 :: bytes))
      in Hhas.
    rewrite Hpair in Hhas. destruct (IH Hhas) as (field & rest & Hsplit & Hno).
    exists (b0 :: field), rest. split; [by rewrite Hsplit|].
    destruct field as [|f0 field]; [done|].
    injection Hsplit as -> _.
    change (hasCRLF (b0 :: f0 :: field))
      with ((bool_decide (b0 = CR) && bool_decide (f0 = LF)) || hasCRLF (f0 :: field)).
    by rewrite Hpair, Hno.
Qed.

Lemma scanCRLF_none (buf line : text) (e : Ending) :
  hasCRLF buf = false ->
  scanCRLF line buf e
  = match e with
    | CleanEOF => Ok (line ++ buf, mkReader [] e)
    | ReadFailure => Err ErrIO
    end.
Proof.
  revert line. induction buf as [|b0 buf IH]; intros line Hno; [done|].
  destruct buf as [|b1 buf]; [done|].
  change (hasCRLF (b0 :: b1 :: buf))
    with ((bool_decide (b0 = CR) && bool_decide (b1 = LF)) || hasCRLF (b1 :: buf))
    in Hno.
  apply orb_false_iff in Hno as [Hpair Hno].
  rewrite scanCRLF_peek, Hpair, (IH (line ++ [b0]) Hno).
  destruct e; [|done]. by rewrite <- app_assoc.
Qed.

(** X1.  [readUpToCRLF] cuts the stream at its first CR LF: the field has
    no CR LF in it and the CR LF stays unread in front of the rest.  When
    the stream has no CR LF, a clean end of file makes the whole rest the
    field and leaves nothing unread, and any other read failure is an
    error. *)
Theorem readUpToCRLF_cuts_at_first_CRLF (bytes : text) (e : Ending) :
  (hasCRLF bytes = true ->
   exists field rest,
     bytes = field ++ CR :: LF :: rest /\ hasCRLF field = false
     /\ readUpToCRLF (mkReader bytes e) = Ok (field, mkReader (CR :: LF :: rest) e))
  /\ (hasCRLF bytes = false ->
      readUpToCRLF (mkReader bytes e)
      = match e with
        | CleanEOF => Ok (bytes, mkReader [] CleanEOF)
        | ReadFailure => Err ErrIO
        end).
Proof.
  split.
  - intros Hhas. destruct (hasCRLF_split bytes Hhas) as (field & rest & -> & Hno).
    exists field, rest. split; [done|]. split; [done|].
    by apply readUpToCRLF_field.
  - intros Hno. unfold readUpToCRLF. cbn [unread ending].
    rewrite scanCRLF_none by done. by destruct e.
Qed.

Section ReaderEdges.
Context `{GoLibs}.

(** X2.  A file without a CR LF terminator is refused: at a clean end of
    file the first field swallows the whole file and the delimiter cannot
    be discarded; the same holds for the second field.  Nothing is
    written. *)
Theorem missing_terminator_fatal (bytes header rest : text) (output : Sink) :
  hasCRLF bytes = false -> hasCRLF header = false -> hasCRLF rest = false ->
  processFile (Some (mkReader bytes CleanEOF)) output
  = mkOutcome false (Some (FailHeaderDelimiter EOF)) None
  /\ processFile (Some (mkReader bytes ReadFailure)) output
     = mkOutcome false (Some (FailHeader ErrIO)) None
  /\ processFile (Some (mkReader (header ++ CR :: LF :: rest) CleanEOF)) output
     = mkOutcome false (Some (FailSerialDelimiter EOF)) None.
Proof.
  intros Hbytes Hheader Hrest.
  unfold processFile, readContainer, readUpToCRLF. cbn [unread ending].
  rewrite !scanCRLF_none by done. split; [done|]. split; [done|].
  rewrite scanCRLF_field by done. step_reader. rewrite Discard_CRLF. step_reader.
  cbn [unread ending]. by rewrite scanCRLF_none.
Qed.

End ReaderEdges.

(** ** Blocks *)

Lemma byteOf_code (b : byte) : byteOf (code b) = b.
Proof.
  unfold byteOf, code. by rewrite N2Z.id, Byte.of_to_N.
Qed.

Lemma u16be_beUint16 (hi lo : byte) : u16be (beUint16 hi lo) = [hi; lo].
Proof.
  pose proof (code_range hi). pose proof (code_range lo).
  unfold u16be, beUint16. f_equal; [|f_equal].
  - replace ((code hi * 256 + code lo) / 256) with (code hi);
      [apply byteOf_code|].
    apply Z.div_unique with (r := code lo); lia.
  - replace ((code hi * 256 + code lo) mod 256) with (code lo);
      [apply byteOf_code|].
    apply Z.mod_unique with (q := code hi); lia.
Qed.

Lemma beUint16_range (hi lo : byte) : 0 <= beUint16 hi lo < 65536.
Proof.
  pose proof (code_range hi). pose proof (code_range lo). unfold beUint16. lia.
Qed.

Lemma ReadFull_inv (n : nat) (r r' : Reader) (data : text) :
  ReadFull n r = Ok (data, r') ->
  unread r = data ++ unread r' /\ length data = n /\ ending r' = ending r.
Proof.
  unfold ReadFull. destruct (Nat.leb_spec n (length (unread r))); [|done].
  intros [= <- <-]. cbn [unread ending].
  split; [by rewrite take_drop|]. split; [|done].
  rewrite length_take. lia.
Qed.

Lemma readUint16_inv (r r' : Reader) (n : Z) :
  readUint16 r = Ok (n, r') ->
  unread r = u16be n ++ unread r' /\ 0 <= n < 65536 /\ ending r' = ending r.
Proof.
  unfold readUint16. destruct (ReadFull 2 r) as [[bs r1]|c] eqn:Hread; [|done].
  apply ReadFull_inv in Hread as (Hsplit & Hlen & Hend). step_reader.
  destruct bs as [|hi [|lo [|? bs]]]; try done.
  intros [= <- <-]. rewrite u16be_beUint16.
  split; [done|]. split; [apply beUint16_range | done].
Qed.

Lemma readZlibStr_inv (r r' : Reader) (data : text) :
  readZlibStr r = Ok (data, r') ->
  unread r = block data ++ unread r' /\ fitsUint16 data /\ ending r' = ending r.
Proof.
  unfold readZlibStr.
  destruct (readUint16 r) as [[n r1]|c] eqn:Hlen; [|done]. step_reader.
  apply readUint16_inv in Hlen as (Hsplit & Hn & Hend).
  destruct (ReadFull (Z.to_nat n) r1) as [[payload r2]|c] eqn:Hdata; [|done].
  step_reader. intros [= <- <-].
  apply ReadFull_inv in Hdata as (Hsplit' & Hlength & Hend').
  unfold block, fitsUint16. replace (Z.of_nat (length payload)) with n by lia.
  split; [by rewrite Hsplit, Hsplit', <- app_assoc|].
  split; [lia | congruence].
Qed.

(** X3.  [readZlibStr] succeeds exactly on a stream that starts with a
    block: the big-endian 16-bit length of the data, then the data.  It
    returns the data, leaves the bytes after the block unread and keeps the
    rest of the stream as it was. *)
Theorem readZlibStr_reads_a_block (r r' : Reader) (data : text) :
  readZlibStr r = Ok (data, r')
  <-> unread r = block data ++ unread r' /\ fitsUint16 data
      /\ ending r' = ending r.
Proof.
  split; [apply readZlibStr_inv|].
  intros (Hsplit & Hfit & Hend). destruct r as [bytes e], r' as [rest e'].
  cbn [unread ending] in *. subst. by apply readZlibStr_block.
Qed.

Section ContainerShape.
Context `{GoLibs}.

Lemma readEntries_inv (n : nat) :
  forall (i : Z) (allLines : list text) (w : bool) (r r' : Reader)
         (lines : list text) (w' : bool),
    readEntries n i allLines w r = Ok (lines, w', r') ->
    exists entries,
      length entries = n
      /\ unread r = concat (map block entries) ++ unread r'
      /\ Forall fitsUint16 entries
      /\ lines = allLines ++ linesOf entries
      /\ w' = w || anyCorrupt entries
      /\ ending r' = ending r.
Proof.
  induction n as [|n IH]; intros i allLines w r r' lines w' Hread.
  - injection Hread as <- <- <-. exists [].
    unfold linesOf, anyCorrupt. simpl.
    by rewrite app_nil_r, orb_false_r.
  - cbn [readEntries] in Hread.
    destruct (readZlibStr r) as [[entry r1]|c] eqn:Hblock; [|done].
    apply readZlibStr_inv in Hblock as (Hsplit & Hfit & Hend).
    cbn [orFail mbind result_bind] in Hread.
    destruct (decompressZlib entry) as [decompressedData|] eqn:Hzlib;
      apply IH in Hread as (entries & Hlen & Hsplit' & Hfits & Hlines & Hw & Hend');
      exists (entry :: entries); rewrite linesOf_cons, anyCorrupt_cons, Hzlib.
    + split; [by rewrite <- Hlen|].
      split; [cbn [map concat]; by rewrite Hsplit, Hsplit', <- app_assoc|].
      split; [by constructor|]. split; [by rewrite Hlines, <- app_assoc|].
      split; [done | congruence].
    + split; [by rewrite <- Hlen|].
      split; [cbn [map concat]; by rewrite Hsplit, Hsplit', <- app_assoc|].
      split; [by constructor|]. split; [done|].
      split; [by rewrite Hw, orb_true_r | congruence].
Qed.

Lemma headerField_inv (r r1 r2 : Reader) (field : text) :
  readUpToCRLF r = Ok (field, r1) -> Discard 2 r1 = Ok (tt, r2) ->
  unread r = field ++ CR :: LF :: unread r2 /\ hasCRLF field = false
  /\ ending r2 = ending r.
Proof.
  destruct r as [bytes e]. intros Hfield Hdiscard.
  destruct (hasCRLF bytes) eqn:Hhas.
  - destruct (hasCRLF_split bytes Hhas) as (field' & rest & -> & Hno).
    rewrite readUpToCRLF_field in Hfield by done. injection Hfield as <- <-.
    rewrite Discard_CRLF in Hdiscard. by injection Hdiscard as <-.
  - unfold readUpToCRLF in Hfield. cbn [unread ending] in Hfield.
    rewrite scanCRLF_none in Hfield by done. destruct e; [|done].
    injection Hfield as <- <-. done.
Qed.

End ContainerShape.

Section AcceptedContainers.
Context `{GoLibs}.

(** X4.  Whatever [readContainer] accepts is a well-formed container,
    possibly followed by trailing bytes: two fields without CR LF, each
    followed by CR LF, the serial block, the entry count and that many
    blocks.  The lines returned are those of its entries, the flag says
    whether an entry was corrupt or bytes trail, and without trailing bytes
    the stream ended cleanly. *)
Theorem readContainer_accepts_containers (bytes : text) (e : Ending)
    (lines : list text) (w : bool) :
  readContainer (mkReader bytes e) = Ok (lines, w) ->
  exists header serial blob entries trailing,
    bytes = container header serial blob entries ++ trailing
    /\ wellFormed header serial blob entries
    /\ lines = linesOf entries
    /\ w = anyCorrupt entries || bool_decide (trailing <> [])
    /\ (trailing = [] -> e = CleanEOF).
Proof.
  unfold readContainer. intros Hread.
  destruct (readUpToCRLF (mkReader bytes e)) as [[header r1]|c] eqn:Hf1; [|done].
  cbn [orFail mbind result_bind] in Hread.
  destruct (Discard 2 r1) as [[[] r2]|c] eqn:Hd1; [|done].
  cbn [orFail mbind result_bind] in Hread.
  destruct (readUpToCRLF r2) as [[serial r3]|c] eqn:Hf2; [|done].
  cbn [orFail mbind result_bind] in Hread.
  destruct (Discard 2 r3) as [[[] r4]|c] eqn:Hd2; [|done].
  cbn [orFail mbind result_bind] in Hread.
  destruct (readZlibStr r4) as [[blob r5]|c] eqn:Hblob; [|done].
  cbn [orFail mbind result_bind] in Hread.
  destruct (readUint16 r5) as [[count r6]|c] eqn:Hcount; [|done].
  cbn [orFail mbind result_bind] in Hread.
  destruct (readEntries (Z.to_nat count) 0 [] false r6)
    as [[[allLines flag] r7]|c] eqn:Hentries; [|done].
  cbn [orFail mbind result_bind] in Hread.
  destruct (headerField_inv _ _ _ _ Hf1 Hd1) as (Hs1 & Hno1 & He1).
  destruct (headerField_inv _ _ _ _ Hf2 Hd2) as (Hs2 & Hno2 & He2).
  apply readZlibStr_inv in Hblob as (Hs3 & Hfit & He3).
  apply readUint16_inv in Hcount as (Hs4 & Hrange & He4).
  apply readEntries_inv in Hentries
    as (entries & Hlen & Hs5 & Hfits & Hlines & Hflag & He5).
  cbn [unread ending] in Hs1, He1.
  exists header, serial, blob, entries, (unread r7).
  assert (Z.of_nat (length entries) = count) as Hn by lia.
  cbn [app] in Hlines. subst allLines.
  split; [|split; [by split; try done; lia|]].
  - unfold container, headers. rewrite Hn, Hs1, Hs2, Hs3, Hs4, Hs5.
    by rewrite <- !app_assoc.
  - unfold ReadByte, endError in Hread. destruct r7 as [trailing e7].
    cbn [unread ending] in *. destruct trailing as [|b trailing].
    + destruct e7; [|done]. injection Hread as <- <-.
      split; [done|]. split; [by rewrite Hflag, orb_false_r | congruence].
    + injection Hread as <- <-. split; [done|].
      split; [by rewrite orb_true_r | done].
Qed.

(** X5.  A well-formed container none of whose entries yields a line (no
    entries at all, for one) converts to the preamble alone; the flag is
    set only if an entry was corrupt. *)
Theorem no_lines_preamble_only (header serial blob : text) (entries : list text) :
  wellFormed header serial blob entries ->
  linesOf entries = [] ->
  processFile (Some (mkReader (container header serial blob entries) CleanEOF)) SinkOK
  = mkOutcome (anyCorrupt entries) None (Some (concat preamble)).
Proof.
  intros Hwf Hnone. unfold processFile.
  pose proof (readContainer_container header serial blob entries [] CleanEOF Hwf)
    as Hread.
  rewrite app_nil_r in Hread. rewrite Hread, Hnone.
  cbn [parseSignalLines fold_left]. rewrite orb_false_r.
  unfold writeDBC, writeDBCFrom. rewrite map_to_list_empty.
  cbn [fmap list_fmap sortSlice foldr map concat]. by rewrite app_nil_r.
Qed.

(** X6.  A container that declares more entries than it holds is refused:
    when the file ends where the next block should start, [processFile]
    returns the error of that entry's length and writes nothing. *)
Theorem missing_entries_fatal (header serial blob : text) (entries : list text)
    (count : Z) (output : Sink) :
  hasCRLF header = false -> hasCRLF serial = false -> fitsUint16 blob ->
  Forall fitsUint16 entries -> Z.of_nat (length entries) < count < 65536 ->
  processFile
    (Some (mkReader (headers header serial blob ++ u16be count
                     ++ concat (map block entries)) CleanEOF)) output
  = mkOutcome (anyCorrupt entries)
      (Some (FailEntry (Z.of_nat (length entries) + 1) (LengthError EOF))) None.
Proof.
  intros Hh Hs Hb He Hcount. unfold processFile.
  rewrite readContainer_headers by done. unfold afterHeaders.
  rewrite readUint16_u16be by lia. step_reader.
  replace (Z.to_nat count)
    with (length entries + S (Z.to_nat count - length entries - 1))%nat by lia.
  rewrite <- (app_nil_r (concat (map block entries))).
  rewrite readEntries_blocks by done. reflexivity.
Qed.

(** X7.  Entries past the declared count are not read: the lines are those
    of the first [count] entries, and the blocks that follow only count as
    trailing data, which sets the warnings flag. *)
Theorem surplus_entries_ignored (header serial blob : text)
    (entries surplus : list text) (e : Ending) :
  wellFormed header serial blob entries ->
  surplus <> [] ->
  readContainer
    (mkReader (container header serial blob entries
               ++ concat (map block surplus)) e)
  = Ok (linesOf entries, true).
Proof.
  intros Hwf Hsurplus. rewrite readContainer_container by done.
  destruct surplus as [|extra surplus]; [done|]. reflexivity.
Qed.

End AcceptedContainers.

(** * Further properties of the line splitting *)

Lemma scanTokens_line (line rest : text) :
  forall cur,
    LF ∉ line -> Z.of_nat (length cur + length line) < MaxScanTokenSize ->
    scanTokens cur (line ++ LF :: rest)
    = dropCR (reverse cur ++ line) :: scanTokens [] rest.
Proof.
  induction line as [|b line IH]; intros cur Hno Hlen.
  - cbn [app scanTokens]. rewrite bool_decide_eq_true_2 by done.
    by rewrite app_nil_r.
  - apply not_elem_of_cons in Hno as [Hb Hno]. cbn [app scanTokens].
    rewrite bool_decide_eq_false_2 by congruence.
    unfold MaxScanTokenSize in *. cbn [length] in Hlen.
    destruct (Z.leb_spec 65536 (Z.of_nat (length cur) + 1)); [lia|].
    rewrite IH; [|done|cbn [length]; lia].
    by rewrite reverse_cons, <- app_assoc.
Qed.

Lemma scanTokens_last (last : text) :
  forall cur,
    LF ∉ last -> Z.of_nat (length cur + length last) < MaxScanTokenSize ->
    scanTokens cur last
    = match reverse cur ++ last with
      | [] => []
      | _ => [dropCR (reverse cur ++ last)]
      end.
Proof.
  induction last as [|b last IH]; intros cur Hno Hlen.
  - cbn [scanTokens]. rewrite app_nil_r. destruct cur as [|c cur]; [done|].
    rewrite reverse_cons. by destruct (reverse cur).
  - apply not_elem_of_cons in Hno as [Hb Hno]. cbn [scanTokens].
    rewrite bool_decide_eq_false_2 by congruence.
    unfold MaxScanTokenSize in *. cbn [length] in Hlen.
    destruct (Z.leb_spec 65536 (Z.of_nat (length cur) + 1)); [lia|].
    rewrite IH; [|done|cbn [length]; lia].
    by rewrite reverse_cons, <- app_assoc.
Qed.

Lemma scanTokens_long (long rest : text) :
  forall cur,
    LF ∉ long -> MaxScanTokenSize <= Z.of_nat (length cur + length long) ->
    Z.of_nat (length cur) < MaxScanTokenSize ->
    scanTokens cur (long ++ rest) = [].
Proof.
  induction long as [|b long IH]; intros cur Hno Hlen Hcur.
  - cbn [length] in Hlen. lia.
  - apply not_elem_of_cons in Hno as [Hb Hno]. cbn [app scanTokens].
    rewrite bool_decide_eq_false_2 by congruence.
    unfold MaxScanTokenSize in *. cbn [length] in Hlen.
    destruct (Z.leb_spec 65536 (Z.of_nat (length cur) + 1)); [done|].
    apply IH; [done|cbn [length]; lia|cbn [length]; lia].
Qed.

Lemma scanTokens_joinLines (lines : list text) (tail : text) :
  Forall (fun line => (LF ∉ line) /\ Z.of_nat (length line) < MaxScanTokenSize) lines ->
  scanTokens [] (joinLines lines ++ tail) = map dropCR lines ++ scanTokens [] tail.
Proof.
  induction 1 as [|line lines [Hno Hlen] _ IH]; [done|].
  unfold joinLines in *. cbn [map concat]. rewrite <- !app_assoc.
  cbn [app]. rewrite scanTokens_line; [|done|cbn [length]; lia].
  cbn [reverse app map]. by rewrite IH.
Qed.

(** X8.  An entry whose text is a sequence of lines, each ended by LF and
    shorter than 64 KiB, and a last line that may lack its LF, is split
    into exactly those lines: one CR before the LF is dropped, blank lines
    are left out, and the order is kept. *)
Theorem entryLines_splits_lines (lines : list text) (last : text) :
  Forall (fun line => (LF ∉ line) /\ Z.of_nat (length line) < MaxScanTokenSize)
         (lines ++ [last]) ->
  entryLines (joinLines lines ++ last)
  = filter (fun line => isBlank line = false)
           (map dropCR lines ++ match last with [] => [] | _ => [dropCR last] end).
Proof.
  intros Hall. apply Forall_app in Hall as [Hlines Hlast].
  apply Forall_singleton in Hlast as [Hno Hlen].
  unfold entryLines. rewrite scanTokens_joinLines by done.
  rewrite scanTokens_last; [done|done|cbn [length]; lia].
Qed.

(** X9.  A line of 64 KiB or more stops the splitting of its entry: the
    lines before it are kept, the long line and everything after it in the
    entry are dropped. *)
Theorem long_line_drops_rest (lines : list text) (long rest : text) :
  Forall (fun line => (LF ∉ line) /\ Z.of_nat (length line) < MaxScanTokenSize) lines ->
  LF ∉ long -> MaxScanTokenSize <= Z.of_nat (length long) ->
  entryLines (joinLines lines ++ long ++ rest)
  = filter (fun line => isBlank line = false) (map dropCR lines).
Proof.
  intros Hlines Hno Hlen. unfold entryLines.
  rewrite scanTokens_joinLines by done.
  rewrite scanTokens_long;
    [by rewrite app_nil_r|done|cbn [length]; lia|by cbn [length]].
Qed.

Lemma dropCR_sub (data : text) (b : byte) :
  b ∈ dropCR data -> b ∈ data.
Proof.
  unfold dropCR. destruct (reverse data) as [|c rest] eqn:Hrev; [done|].
  destruct (bool_decide (c = CR)); [|done].
  rewrite elem_of_reverse. intros Hin.
  apply elem_of_reverse. rewrite Hrev. by apply list_elem_of_further.
Qed.

Lemma dropCR_length (data : text) : (length (dropCR data) <= length data)%nat.
Proof.
  unfold dropCR. destruct (reverse data) as [|c rest] eqn:Hrev; [done|].
  destruct (bool_decide (c = CR)); [|done].
  rewrite length_reverse. rewrite <- (length_reverse data), Hrev. simpl. lia.
Qed.

Lemma scanTokens_tokens (data : text) :
  forall cur,
    LF ∉ cur -> Z.of_nat (length cur) < MaxScanTokenSize ->
    Forall (fun token => (LF ∉ token) /\ Z.of_nat (length token) < MaxScanTokenSize)
           (scanTokens cur data).
Proof.
  assert (forall cur, LF ∉ cur -> Z.of_nat (length cur) < MaxScanTokenSize ->
                      (LF ∉ dropCR (reverse cur))
                      /\ Z.of_nat (length (dropCR (reverse cur))) < MaxScanTokenSize)
    as Htoken.
  { intros cur Hno Hlen. split.
    - intros Hin. apply dropCR_sub in Hin. rewrite elem_of_reverse in Hin.
      by apply Hno.
    - pose proof (dropCR_length (reverse cur)) as Hle.
      rewrite length_reverse in Hle. lia. }
  induction data as [|b data IH]; intros cur Hno Hlen; cbn [scanTokens].
  - destruct cur as [|c cur]; [constructor|].
    apply Forall_singleton. by apply Htoken.
  - destruct (bool_decide (b = LF)) eqn:Hb.
    + constructor; [by apply Htoken|]. apply IH; [apply not_elem_of_nil|done].
    + apply bool_decide_eq_false in Hb. unfold MaxScanTokenSize in *.
      destruct (Z.leb_spec 65536 (Z.of_nat (length cur) + 1)); [constructor|].
      apply IH; [|cbn [length]; lia].
      apply not_elem_of_cons. split; [congruence | done].
Qed.

(** X10.  Every line an entry contributes holds no LF, is not blank and is
    shorter than 64 KiB. *)
Theorem entryLines_lines (decompressedData : text) :
  Forall (fun line => (LF ∉ line) /\ isBlank line = false
                      /\ Z.of_nat (length line) < MaxScanTokenSize)
         (entryLines decompressedData).
Proof.
  unfold entryLines. apply Forall_forall. intros line Hin.
  apply list_elem_of_filter in Hin as [Hblank Hin].
  pose proof (scanTokens_tokens decompressedData [] (not_elem_of_nil _)) as Hall.
  rewrite Forall_forall in Hall. destruct (Hall eq_refl line Hin) as [Hno Hlen].
  done.
Qed.

(** * Corrupt entries *)

Section CorruptEntries.
Context `{GoLibs}.

Lemma entryLines_held (lines : list text) (last : text) :
  Forall scannable (lines ++ [last]) ->
  entryLines (joinLines lines ++ last) = linesHeld (Some (lines, last)).
Proof.
  intros Hall. apply Forall_app in Hall as [Hlines Hlast].
  apply Forall_singleton in Hlast as [Hno Hlen].
  unfold entryLines, linesHeld. rewrite scanTokens_joinLines by done.
  rewrite scanTokens_last; [done|done|cbn [length]; lia].
Qed.

Lemma linesOf_held (entries : list text) (contents : list (option (list text * text))) :
  Forall2 holds entries contents ->
  linesOf entries = concat (map linesHeld contents).
Proof.
  induction 1 as [|entry content entries contents Hholds _ IH]; [done|].
  rewrite linesOf_cons. cbn [map concat].
  destruct content as [[lines last]|]; cbn [holds] in Hholds.
  - destruct Hholds as [-> Hall]. by rewrite entryLines_held, IH.
  - by rewrite Hholds, IH.
Qed.

(** C3.  In a well-formed container with an entry that does not decompress,
    the reader goes on: it returns the lines of the entries that do
    decompress, in the order of the entries, and a true warnings flag; the
    conversion returns no error and writes the messages parsed from those
    lines.  When every entry that decompresses holds lines shorter than
    64 KiB, those lines are exactly the lines the reader returns: one CR
    before the LF dropped, blank lines left out, nothing of an intact entry
    lost because of a corrupt one. *)
Theorem corrupt_entry_skipped (header serial blob : text) (entries : list text)
    (trailing : text) :
  wellFormed header serial blob entries ->
  (exists entry, entry ∈ entries /\ decompressZlib entry = None) ->
  let input := mkReader (container header serial blob entries ++ trailing) CleanEOF in
  let allLines := concat (map entryLines (omap decompressZlib entries)) in
  readContainer input = Ok (allLines, true)
  /\ processFile (Some input) SinkOK
     = mkOutcome true None (Some (concat (writeDBC (parseSignalLines allLines).1)))
  /\ (forall contents,
        Forall2 holds entries contents ->
        allLines = concat (map linesHeld contents)).
Proof.
  intros Hwf Hbad input allLines. apply anyCorrupt_true in Hbad.
  assert (readContainer input = Ok (allLines, true)) as Hread.
  { unfold input. rewrite readContainer_container by done.
    destruct trailing; [by rewrite Hbad | done]. }
  split; [done|]. split; [|apply linesOf_held].
  unfold processFile. rewrite Hread. by destruct (parseSignalLines allLines).
Qed.

End CorruptEntries.

(** * Further properties of the line parser *)





Lemma length_splitAt (sep : byte) (s : text) :
  forall cur, length (splitAt sep cur s) = S (length (filter (fun c => c = sep) s)).
Proof.
  induction s as [|c s IH]; intros cur; [done|].
  cbn [splitAt]. rewrite filter_cons.
  destruct (decide (c = sep)) as [->|Hne].
  - rewrite bool_decide_eq_true_2 by done. cbn [length]. by rewrite IH.
  - rewrite bool_decide_eq_false_2 by done. apply IH.
Qed.

Lemma trimLeft_app_cut (pre s : text) :
  Forall (fun c => c ∈ cutset) pre ->
  trimLeft cutset (pre ++ s) = trimLeft cutset s.
Proof.
  induction 1 as [|c pre Hc _ IH]; [done|].
  cbn [app trimLeft]. by rewrite bool_decide_eq_true_2.
Qed.

Lemma trimLeft_reverse_app_cut (s post : text) :
  Forall (fun c => c ∈ cutset) post ->
  trimLeft cutset (reverse (trimLeft cutset (s ++ post)))
  = trimLeft cutset (reverse (trimLeft cutset s)).
Proof.
  intros Hpost. induction s as [|c s IH].
  - cbn [app]. rewrite <- (app_nil_r post), trimLeft_app_cut by done. done.
  - cbn [app trimLeft]. destruct (bool_decide (c ∈ cutset)); [done|].
    change (c :: s ++ post) with ((c :: s) ++ post).
    rewrite reverse_app. apply trimLeft_app_cut.
    by apply Forall_reverse.
Qed.

Lemma Trim_app_cut (pre s post : text) :
  Forall (fun c => c ∈ cutset) pre -> Forall (fun c => c ∈ cutset) post ->
  Trim (pre ++ s ++ post) cutset = Trim s cutset.
Proof.
  intros Hpre Hpost. unfold Trim.
  by rewrite trimLeft_app_cut, trimLeft_reverse_app_cut.
Qed.


Section ParserEdges.
Context `{GoLibs}.

Lemma parseLine_flag (st : gmap Z Message * bool) (line : text) :
  (parseLine st line).2 = false
  <-> st.2 = false
      /\ (12 <= length (fields line))%nat
      /\ (ParseUint (nth 1 (fields line) []) 32).2 = None
      /\ (Atoi (nth 11 (fields line) [])).2 = None.
Proof.
  destruct (lineKey line) as [id|] eqn:Hkey.
  - rewrite (parseLine_accepted _ _ _ Hkey). cbn [snd].
    unfold lineKey in Hkey. unfold dlcAssumed.
    destruct (Nat.ltb_spec (length (fields line)) 11); [done|].
    destruct (ParseUint (nth 1 (fields line) []) 32) as [msgID [c|]]; [done|].
    rewrite orb_false_iff.
    destruct (Nat.leb_spec 12 (length (fields line))).
    + destruct (Atoi (nth 11 (fields line) [])) as [dlc [c|]]; cbn [snd];
        intuition congruence.
    + split; [intuition congruence|]. intros (_ & ? & _). lia.
  - rewrite parseLine_skipped by done. cbn [snd]. split; [done|].
    intros (_ & Hlen & Hid & _). unfold lineKey in Hkey.
    destruct (Nat.ltb_spec (length (fields line)) 11); [lia|].
    by destruct (ParseUint (nth 1 (fields line) []) 32) as [msgID [c|]].
Qed.

Lemma fold_parseLine_flag (lines : list text) :
  forall st,
    (fold_left parseLine lines st).2 = false
    <-> st.2 = false
        /\ Forall (fun line =>
                     (12 <= length (fields line))%nat
                     /\ (ParseUint (nth 1 (fields line) []) 32).2 = None
                     /\ (Atoi (nth 11 (fields line) [])).2 = None) lines.
Proof.
  induction lines as [|line lines IH]; intros st.
  - cbn [fold_left]. split; [by intros ?; split | by intros [? _]].
  - cbn [fold_left]. rewrite IH, parseLine_flag, Forall_cons. tauto.
Qed.

(** X12.  [parseSignalLines] reports no warning exactly when every line has
    at least 12 fields, a message ID that [ParseUint] accepts and a DLC
    that [Atoi] accepts. *)
Theorem no_warning_iff_all_lines_complete (lines : list text) :
  (parseSignalLines lines).2 = false
  <-> Forall (fun line =>
                (12 <= length (fields line))%nat
                /\ (ParseUint (nth 1 (fields line) []) 32).2 = None
                /\ (Atoi (nth 11 (fields line) [])).2 = None) lines.
Proof.
  unfold parseSignalLines. rewrite fold_parseLine_flag. cbn [snd]. tauto.
Qed.

(** X13.  The map holds a message for a key exactly when some line goes to
    it, and the signals of the message are the signals of those lines, one
    per line, in input order. *)
Theorem signals_follow_lines (lines : list text) (id : Z) :
  Signals <$> (parseSignalLines lines).1 !! id
  = match linesFor id lines with
    | [] => None
    | ls => Some (map lineSignal ls)
    end.
Proof.
  rewrite parseSignalLines_lookup. unfold built.
  by destruct (linesFor id lines).
Qed.

Lemma lineKey_range (line : text) (id : Z) :
  lineKey line = Some id -> 0 <= id < 2 ^ 32.
Proof.
  unfold lineKey, uint32. destruct (length (fields line) <? 11)%nat; [done|].
  destruct (ParseUint (nth 1 (fields line) []) 32) as [msgID [c|]]; [done|].
  intros [= <-]. apply Z.mod_pos_bound. lia.
Qed.

(** X14.  Every message of the map is stored under its own ID, which is in
    the 32-bit unsigned range; its name is [CAN_MSG_] followed by the ID in
    decimal, its node is [VECTOR__XXX], it has at least one signal, and
    the byte order of each signal is 0 or 1. *)
Theorem message_invariants (lines : list text) (id : Z) (m : Message) :
  (parseSignalLines lines).1 !! id = Some m ->
  0 <= id < 2 ^ 32
  /\ ID m = id
  /\ MsgName m = str "CAN_MSG_" ++ formatInt id
  /\ Node m = str "VECTOR__XXX"
  /\ Signals m <> []
  /\ Forall (fun signal => ByteOrder signal = 0 \/ ByteOrder signal = 1) (Signals m).
Proof.
  rewrite parseSignalLines_lookup. unfold built.
  destruct (linesFor id lines) as [|first others] eqn:Hfor; [done|].
  intros [= <-]. cbn [ID MsgName Node Signals].
  assert (lineKey first = Some id) as Hkey.
  { assert (first ∈ linesFor id lines) as Hin by (rewrite Hfor; apply list_elem_of_here).
    unfold linesFor in Hin. by apply list_elem_of_filter in Hin as [Hkey _]. }
  split; [by apply (lineKey_range first)|]. do 4 (split; [done|]).
  apply Forall_forall. intros signal Hin.
  change (lineSignal first :: map lineSignal others)
    with (map lineSignal (first :: others)) in Hin.
  apply list_elem_of_In, in_map_iff in Hin as (line & <- & _).
  unfold lineSignal. cbn [ByteOrder].
  destruct (bool_decide _); [by right | by left].
Qed.

(** X15.  A line that, once trimmed, has fewer than ten commas is skipped:
    the messages stay as they were and the flag is set. *)
Theorem short_line_skipped (st : gmap Z Message * bool) (line : text) :
  (commas (Trim line cutset) < 10)%nat ->
  length (fields line) = S (commas (Trim line cutset))
  /\ parseLine st line = (st.1, true).
Proof.
  intros Hfew.
  assert (length (fields line) = S (commas (Trim line cutset))) as Hlen
    by apply length_splitAt.
  split; [done|]. apply parseLine_skipped. unfold lineKey.
  destruct (Nat.ltb_spec (length (fields line)) 11); [done | lia].
Qed.

(** X16.  For a line that goes to a message and has no usable DLC (fewer
    than 12 fields, or a 12th field [Atoi] refuses), 8 is taken and the
    flag is set: a new message gets DLC 8, an existing one keeps a larger
    DLC. *)
Theorem dlc_defaults_to_8 (st : gmap Z Message * bool) (line : text) (id : Z) :
  lineKey line = Some id ->
  (length (fields line) < 12)%nat \/ (Atoi (nth 11 (fields line) [])).2 <> None ->
  (parseLine st line).2 = true
  /\ DLC <$> (parseLine st line).1 !! id
     = Some (match st.1 !! id with
             | Some m => Z.max (DLC m) 8
             | None => 8
             end).
Proof.
  intros Hkey Hbad.
  assert (lineDLC line = 8 /\ dlcAssumed line = true) as [Hdlc Hassumed].
  { unfold lineDLC, dlcAssumed.
    destruct (Nat.leb_spec 12 (length (fields line))) as [Hlen|Hlen]; [|done].
    destruct Hbad as [Hshort|Herr]; [lia|].
    by destruct (Atoi (nth 11 (fields line) [])) as [dlc [c|]]. }
  split.
  - rewrite (parseLine_accepted _ _ _ Hkey). cbn [snd].
    by rewrite Hassumed, orb_true_r.
  - rewrite parseLine_lookup. unfold absorb.
    destruct (decide (lineKey line = Some id)); [|done].
    rewrite Hdlc. cbn [fmap option_fmap option_map]. f_equal.
    destruct (st.1 !! id) as [m|]; [|done].
    destruct (Z.ltb_spec (DLC m) 8); cbn [appendSignal withDLC DLC]; lia.
Qed.

(** X17.  Spaces, tabs and commas before and after a line do not matter:
    the line is parsed as without them. *)
Theorem surrounding_separators_ignored (st : gmap Z Message * bool)
    (pre line post : text) :
  Forall (fun c => c ∈ cutset) pre -> Forall (fun c => c ∈ cutset) post ->
  fields (pre ++ line ++ post) = fields line
  /\ parseLine st (pre ++ line ++ post) = parseLine st line.
Proof.
  intros Hpre Hpost.
  assert (fields (pre ++ line ++ post) = fields line) as Hfields.
  { unfold fields. fold cutset. by rewrite Trim_app_cut. }
  split; [done|]. unfold parseLine. by rewrite Hfields.
Qed.

(** X18.  The text written for a list of lines: the preamble, then for
    each key that some line goes to, in strictly ascending order, the block
    of the message built from the lines of that key. *)
Theorem output_follows_lines (lines : list text) :
  exists ids,
    StronglySorted Z.lt ids
    /\ (forall id, id ∈ ids <-> linesFor id lines <> [])
    /\ writeDBC (parseSignalLines lines).1
       = preamble
         ++ concat (map (fun id => match built id lines with
                                   | Some msg => frameBlock msg
                                   | None => []
                                   end) ids).
Proof.
  set (messages := (parseSignalLines lines).1).
  exists (sortSlice Z.ltb (fst <$> map_to_list messages)).
  split; [|split].
  - apply sorted_NoDup_strict; [apply sortSlice_sorted|].
    rewrite sortSlice_perm. apply NoDup_fst_map_to_list.
  - intros id. rewrite sortSlice_perm, list_elem_of_fmap. split.
    + intros ([k m] & -> & Hin). apply elem_of_map_to_list in Hin.
      unfold messages in Hin. rewrite parseSignalLines_lookup in Hin.
      unfold built in Hin. cbn [fst]. by destruct (linesFor k lines).
    + intros Hsome. destruct (built_is_Some id lines Hsome) as [m Hm].
      exists (id, m). split; [done|]. apply elem_of_map_to_list.
      unfold messages. by rewrite parseSignalLines_lookup.
  - unfold writeDBC, writeDBCFrom. fold messages. f_equal. f_equal.
    apply map_ext. intros id. unfold messageBlock, messages.
    by rewrite parseSignalLines_lookup.
Qed.

End ParserEdges.

(** * Numeric fields *)







Section NumericFields.
Context `{GoLibs}.


End NumericFields.

(** * Properties of [main] *)

Section MainProperties.
Context `{GoLibs} {World : Type}.
Variable openInput : World -> text -> option Reader.
Variable createOutput : World -> text -> Sink.
Variable afterConversion : World -> text -> text -> World.
Variable defaultOutput : text -> text.

Local Abbreviation loop :=
  (mainLoop World openInput createOutput afterConversion defaultOutput).
Local Abbreviation run_main :=
  (main World openInput createOutput afterConversion defaultOutput).

Lemma mainLoop_inputs (inputFiles : list text) (outputFileFlag : text)
    (remaining : list text) :
  forall run,
    map convInput (conversions (loop inputFiles outputFileFlag remaining run))
    = map convInput (conversions run) ++ remaining.
Proof.
  induction remaining as [|currentInput rest IH]; intros run.
  - cbn [mainLoop]. by rewrite app_nil_r.
  - cbn [mainLoop]. rewrite IH.
    destruct (err _); cbn [conversions]; rewrite map_app; cbn [map convInput];
      by rewrite <- app_assoc.
Qed.

Lemma mainLoop_outputs (inputFiles : list text) (outputFileFlag : text)
    (remaining : list text) :
  forall run,
    let rule c := convOutput c
                  = outputPathFor defaultOutput inputFiles outputFileFlag (convInput c) in
    Forall rule (conversions run) ->
    Forall rule (conversions (loop inputFiles outputFileFlag remaining run)).
Proof.
  induction remaining as [|currentInput rest IH]; intros run rule Hrun; [done|].
  cbn [mainLoop]. apply IH.
  destruct (err _); cbn [conversions]; apply Forall_app; split; try done;
    by apply Forall_singleton.
Qed.

Lemma processed_snoc (calls : list Conversion) (c : Conversion) :
  Z.of_nat (length (List.filter processed (calls ++ [c])))
  = Z.of_nat (length (List.filter processed calls))
    + (if processed c then 1 else 0).
Proof.
  rewrite List.filter_app, length_app. cbn [List.filter].
  destruct (processed c); cbn [length]; lia.
Qed.

Lemma issue_snoc (calls : list Conversion) (c : Conversion) :
  existsb issue (calls ++ [c]) = existsb issue calls || issue c.
Proof.
  rewrite existsb_app. cbn [existsb]. by rewrite orb_false_r.
Qed.

Lemma mainLoop_counts (inputFiles : list text) (outputFileFlag : text)
    (remaining : list text) :
  forall run,
    filesProcessed run = Z.of_nat (length (List.filter processed (conversions run))) ->
    hadAnyIssues run = existsb issue (conversions run) ->
    let final := loop inputFiles outputFileFlag remaining run in
    filesProcessed final = Z.of_nat (length (List.filter processed (conversions final)))
    /\ hadAnyIssues final = existsb issue (conversions final).
Proof.
  induction remaining as [|currentInput rest IH]; intros run Hcount Hissues; [done|].
  cbn [mainLoop]. apply IH.
  - destruct (err _) eqn:Herr; cbn [conversions filesProcessed];
      rewrite processed_snoc; unfold processed at 2; cbn [convOutcome];
      rewrite Herr; cbn [bool_decide]; [rewrite bool_decide_eq_false_2 by done
                                       |rewrite bool_decide_eq_true_2 by done]; lia.
  - destruct (err _) eqn:Herr; cbn [conversions hadAnyIssues];
      rewrite issue_snoc; unfold issue at 2, processed; cbn [convOutcome];
      rewrite Herr; [rewrite bool_decide_eq_false_2 by done
                    |rewrite bool_decide_eq_true_2 by done];
      cbn [negb orb]; by rewrite ?orb_true_r, ?Hissues.
Qed.

Lemma mainLoop_exitStatus (inputFiles : list text) (outputFileFlag : text)
    (remaining : list text) :
  forall run, exitStatus run = 0 ->
              exitStatus (loop inputFiles outputFileFlag remaining run) = 0.
Proof.
  induction remaining as [|currentInput rest IH]; intros run Hrun; [done|].
  cbn [mainLoop]. apply IH. by destruct (err _).
Qed.

(** X19.  [main] calls [processFile] once for each input file, in the order
    of the [-i] flag first and the positional arguments after it, also when
    a path is given twice.  Each call gets the [-o] path when that is given
    and there is exactly one input file, and the default path of its input
    otherwise.  With no input file no call is made and the exit status is
    1; otherwise [main] returns normally. *)
Theorem main_converts_each_input_once (inputFileFlag outputFileFlag : text)
    (args : list text) (w : World) :
  let inputFiles := inputFilesOf inputFileFlag args in
  let run := run_main inputFileFlag outputFileFlag args w in
  map convInput (conversions run) = inputFiles
  /\ Forall (fun c => convOutput c
                      = if bool_decide (length inputFiles = 1%nat)
                           && negb (bool_decide (outputFileFlag = []))
                        then outputFileFlag
                        else defaultOutput (convInput c))
            (conversions run)
  /\ exitStatus run = (if bool_decide (inputFiles = []) then 1 else 0).
Proof.
  intros inputFiles run. unfold run, main. fold inputFiles.
  destruct inputFiles as [|first others] eqn:Hfiles; [by repeat split|].
  rewrite <- Hfiles. split; [|split].
  - by rewrite mainLoop_inputs.
  - by apply mainLoop_outputs.
  - rewrite mainLoop_exitStatus by done. by rewrite Hfiles.
Qed.

(** X20.  The counter [main] prints is the number of calls of [processFile]
    that returned no error, and [main] waits for Enter exactly when some
    call returned an error or a warning. *)
Theorem main_counts_conversions (inputFileFlag outputFileFlag : text)
    (args : list text) (w : World) :
  let run := run_main inputFileFlag outputFileFlag args w in
  filesProcessed run = Z.of_nat (length (List.filter processed (conversions run)))
  /\ hadAnyIssues run = existsb issue (conversions run)
  /\ 0 <= filesProcessed run <= Z.of_nat (length (inputFilesOf inputFileFlag args)).
Proof.
  intros run.
  assert (filesProcessed run
          = Z.of_nat (length (List.filter processed (conversions run)))
          /\ hadAnyIssues run = existsb issue (conversions run)) as [Hcount Hissues].
  { unfold run, main. destruct (inputFilesOf inputFileFlag args); [done|].
    by apply mainLoop_counts. }
  split; [done|]. split; [done|].
  assert (length (conversions run) = length (inputFilesOf inputFileFlag args)) as Hlen.
  { rewrite <- (length_map convInput). f_equal. unfold run, main.
    destruct (inputFilesOf inputFileFlag args) as [|first others] eqn:Hfiles; [done|].
    by rewrite mainLoop_inputs. }
  pose proof (List.filter_length_le processed (conversions run)). lia.
Qed.

Lemma mainLoop_outputFlagWarning (inputFiles : list text) (outputFileFlag : text)
    (remaining : list text) :
  forall run,
    outputFlagWarning (loop inputFiles outputFileFlag remaining run)
    = outputFlagWarning run.
Proof.
  induction remaining as [|currentInput rest IH]; intros run; [done|].
  cbn [mainLoop]. rewrite IH. by destruct (err _).
Qed.

Lemma mainLoop_output_flag (inputFiles : list text) (outputFileFlag : text)
    (remaining : list text) :
  length inputFiles <> 1%nat ->
  forall run run',
    conversions run = conversions run' ->
    filesProcessed run = filesProcessed run' ->
    hadAnyIssues run = hadAnyIssues run' ->
    world run = world run' ->
    exitStatus run = exitStatus run' ->
    let given := loop inputFiles outputFileFlag remaining run in
    let absent := loop inputFiles [] remaining run' in
    conversions given = conversions absent
    /\ filesProcessed given = filesProcessed absent
    /\ hadAnyIssues given = hadAnyIssues absent
    /\ world given = world absent
    /\ exitStatus given = exitStatus absent.
Proof.
  intros Hseveral.
  induction remaining as [|currentInput rest IH];
    intros run run' Hcalls Hcount Hissues Hworld Hexit; [done|].
  cbn [mainLoop]. unfold outputPathFor.
  rewrite !(bool_decide_eq_false_2 (length _ = 1%nat)) by done.
  cbn [andb]. rewrite Hworld, Hcalls.
  apply IH; destruct (err _);
    cbn [conversions filesProcessed hadAnyIssues world exitStatus]; congruence.
Qed.

(** X21.  With more than one input file the [-o] flag has one effect only:
    [main] prints the warning that the flag is ignored.  The calls of
    [processFile] with their output paths and outcomes, the counter, the
    issues flag, the file system and the exit status are those of the run
    without [-o], which prints no such warning. *)
Theorem output_flag_ignored_for_several_inputs (inputFileFlag outputFileFlag : text)
    (args : list text) (w : World) :
  (1 < length (inputFilesOf inputFileFlag args))%nat ->
  let given := run_main inputFileFlag outputFileFlag args w in
  let absent := run_main inputFileFlag [] args w in
  outputFlagWarning given = negb (bool_decide (outputFileFlag = []))
  /\ outputFlagWarning absent = false
  /\ conversions given = conversions absent
  /\ filesProcessed given = filesProcessed absent
  /\ hadAnyIssues given = hadAnyIssues absent
  /\ world given = world absent
  /\ exitStatus given = exitStatus absent.
Proof.
  intros Hseveral given absent. unfold given, absent, main.
  destruct (inputFilesOf inputFileFlag args) as [|first others] eqn:Hfiles;
    [cbn [length] in Hseveral; lia|].
  rewrite <- Hfiles in *. rewrite !mainLoop_outputFlagWarning.
  cbn [outputFlagWarning]. rewrite bool_decide_eq_true_2 by done.
  split; [done|]. split; [by rewrite andb_false_r|].
  apply mainLoop_output_flag; [lia|done..].
Qed.

End MainProperties.

(** * What the result does not depend on *)

Section Independence.
Context `{GoLibs}.

(** X22.  The text of the two header fields and of the serial block never
    reaches the result: two well-formed containers with the same entries
    and the same trailing bytes convert alike. *)
Theorem headers_do_not_matter (header serial blob header' serial' blob' : text)
    (entries : list text) (trailing : text) (e : Ending) (output : Sink) :
  wellFormed header serial blob entries ->
  wellFormed header' serial' blob' entries ->
  processFile
    (Some (mkReader (container header serial blob entries ++ trailing) e)) output
  = processFile
      (Some (mkReader (container header' serial' blob' entries ++ trailing) e)) output.
Proof.
  intros Hwf Hwf'. unfold processFile.
  by rewrite !readContainer_container.
Qed.

(** X23.  The messages depend on the lines only through the lines of each
    key, taken in order: two inputs that agree on them for every key give
    the same map and the same text, however lines of different messages
    are interleaved and whatever skipped lines lie between them. *)
Theorem messages_depend_on_lines_per_key (lines lines' : list text) :
  (forall id, linesFor id lines = linesFor id lines') ->
  (parseSignalLines lines).1 = (parseSignalLines lines').1
  /\ writeDBC (parseSignalLines lines).1 = writeDBC (parseSignalLines lines').1.
Proof.
  intros Hsame.
  assert ((parseSignalLines lines).1 = (parseSignalLines lines').1) as Heq.
  { apply map_eq. intros id. rewrite !parseSignalLines_lookup.
    unfold built. by rewrite Hsame. }
  split; [done | by rewrite Heq].
Qed.

End Independence.

(** * Concrete inputs for the further properties *)

Lemma missing_terminator_fatal_witness :
  hasCRLF (str "RACELOGIC") = false /\ hasCRLF (str "H") = false
  /\ hasCRLF (str "SN0042") = false
  /\ @processFile storedOnly (Some (mkReader (str "RACELOGIC") CleanEOF)) SinkOK
     = mkOutcome false (Some (FailHeaderDelimiter EOF)) None
  /\ @processFile storedOnly (Some (mkReader (str "RACELOGIC") ReadFailure)) SinkOK
     = mkOutcome false (Some (FailHeader ErrIO)) None
  /\ @processFile storedOnly
       (Some (mkReader (str "H" ++ CR :: LF :: str "SN0042") CleanEOF)) SinkOK
     = mkOutcome false (Some (FailSerialDelimiter EOF)) None.
Proof.
  split; [reflexivity|]. split; [reflexivity|]. split; [reflexivity|].
  apply (@missing_terminator_fatal storedOnly); reflexivity.
Defined.

Lemma readContainer_accepts_containers_witness :
  @readContainer storedOnly (mkReader sampleContainer CleanEOF)
  = Ok ([lineC; lineA; lineD; lineB], true)
  /\ exists header serial blob entries trailing,
       sampleContainer = container header serial blob entries ++ trailing
       /\ wellFormed header serial blob entries
       /\ [lineC; lineA; lineD; lineB] = @linesOf storedOnly entries
       /\ true = @anyCorrupt storedOnly entries || bool_decide (trailing <> [])
       /\ (trailing = [] -> CleanEOF = CleanEOF).
Proof.
  split; [exact sample_lines|].
  exact (@readContainer_accepts_containers storedOnly sampleContainer CleanEOF
           _ _ sample_lines).
Defined.

Lemma empty_wellFormed :
  wellFormed (str "RACELOGIC") (str "SN0042") (str "not zlib") [].
Proof.
  split; try reflexivity. constructor.
Qed.

Lemma no_lines_preamble_only_witness :
  wellFormed (str "RACELOGIC") (str "SN0042") (str "not zlib") []
  /\ @linesOf storedOnly [] = []
  /\ @processFile storedOnly
       (Some (mkReader (container (str "RACELOGIC") (str "SN0042") (str "not zlib") [])
                       CleanEOF)) SinkOK
     = mkOutcome (@anyCorrupt storedOnly []) None (Some (concat preamble)).
Proof.
  split; [exact empty_wellFormed|]. split; [reflexivity|].
  exact (@no_lines_preamble_only storedOnly _ _ _ [] empty_wellFormed eq_refl).
Defined.

Lemma missing_entries_fatal_witness :
  hasCRLF (str "RACELOGIC") = false /\ hasCRLF (str "SN0042") = false
  /\ fitsUint16 (str "not zlib") /\ Forall fitsUint16 sampleEntries
  /\ Z.of_nat (length sampleEntries) < 5 < 65536
  /\ @processFile storedOnly
       (Some (mkReader (headers (str "RACELOGIC") (str "SN0042") (str "not zlib")
                        ++ u16be 5 ++ concat (map block sampleEntries)) CleanEOF))
       SinkOK
     = mkOutcome (@anyCorrupt storedOnly sampleEntries)
         (Some (FailEntry (Z.of_nat (length sampleEntries) + 1) (LengthError EOF)))
         None.
Proof.
  assert (Forall fitsUint16 sampleEntries) as Hfit by apply sample_wellFormed.
  assert (Z.of_nat (length sampleEntries) < 5 < 65536) as Hcount by (simpl; lia).
  split; [reflexivity|]. split; [reflexivity|]. split; [reflexivity|].
  split; [exact Hfit|]. split; [exact Hcount|].
  exact (@missing_entries_fatal storedOnly (str "RACELOGIC") (str "SN0042")
           (str "not zlib") sampleEntries 5 SinkOK eq_refl eq_refl eq_refl
           Hfit Hcount).
Defined.

Lemma surplus_entries_ignored_witness :
  wellFormed (str "RACELOGIC") (str "SN0042") (str "not zlib") sampleEntries
  /\ [zlibStore lineA] <> []
  /\ @readContainer storedOnly
       (mkReader (container (str "RACELOGIC") (str "SN0042") (str "not zlib")
                            sampleEntries
                  ++ concat (map block [zlibStore lineA])) CleanEOF)
     = Ok (@linesOf storedOnly sampleEntries, true).
Proof.
  assert ([zlibStore lineA] <> []) as Hne by discriminate.
  split; [exact sample_wellFormed|]. split; [exact Hne|].
  exact (@surplus_entries_ignored storedOnly _ _ _ sampleEntries [zlibStore lineA]
           CleanEOF sample_wellFormed Hne).
Defined.

Lemma sample_lines_short :
  Forall (fun line => (LF ∉ line) /\ Z.of_nat (length line) < MaxScanTokenSize)
         [lineA; lineC; lineB].
Proof.
  repeat constructor; try (by vm_compute).
  all: refine (bool_decide_unpack _ _); vm_compute; exact I.
Qed.

Lemma entryLines_splits_lines_witness :
  Forall (fun line => (LF ∉ line) /\ Z.of_nat (length line) < MaxScanTokenSize)
         ([lineA; lineC] ++ [lineB])
  /\ entryLines (joinLines [lineA; lineC] ++ lineB)
     = filter (fun line => isBlank line = false)
              (map dropCR [lineA; lineC]
               ++ match lineB with [] => [] | _ => [dropCR lineB] end).
Proof.
  split; [exact sample_lines_short|].
  exact (entryLines_splits_lines [lineA; lineC] lineB sample_lines_short).
Defined.

Lemma long_line_drops_rest_witness :
  Forall (fun line => (LF ∉ line) /\ Z.of_nat (length line) < MaxScanTokenSize)
         [lineA; lineC; lineB]
  /\ (LF ∉ replicate (Z.to_nat 65536) "a"%byte)
  /\ MaxScanTokenSize <= Z.of_nat (length (replicate (Z.to_nat 65536) "a"%byte))
  /\ entryLines (joinLines [lineA; lineC; lineB]
                 ++ replicate (Z.to_nat 65536) "a"%byte ++ LF :: lineD)
     = filter (fun line => isBlank line = false) (map dropCR [lineA; lineC; lineB]).
Proof.
  assert (LF ∉ replicate (Z.to_nat 65536) "a"%byte) as Hno.
  { intros Hin. by apply elem_of_replicate_inv in Hin. }
  assert (MaxScanTokenSize <= Z.of_nat (length (replicate (Z.to_nat 65536) "a"%byte)))
    as Hlen.
  { rewrite length_replicate. unfold MaxScanTokenSize. lia. }
  split; [exact sample_lines_short|]. split; [exact Hno|]. split; [exact Hlen|].
  exact (long_line_drops_rest [lineA; lineC; lineB] _ (LF :: lineD)
           sample_lines_short Hno Hlen).
Defined.

Lemma message_invariants_witness :
  exists m,
    (@parseSignalLines storedOnly [lineC; lineA; lineD; lineB]).1 !! 256 = Some m
    /\ 0 <= 256 < 2 ^ 32
    /\ ID m = 256
    /\ MsgName m = str "CAN_MSG_" ++ formatInt 256
    /\ Node m = str "VECTOR__XXX"
    /\ Signals m <> []
    /\ Forall (fun signal => ByteOrder signal = 0 \/ ByteOrder signal = 1)
              (Signals m).
Proof.
  destruct (@built_is_Some storedOnly 256 [lineC; lineA; lineD; lineB]) as [m Hm];
    [vm_compute; discriminate|].
  rewrite <- parseSignalLines_lookup in Hm.
  exists m. split; [exact Hm|].
  exact (@message_invariants storedOnly [lineC; lineA; lineD; lineB] 256 m Hm).
Defined.

Lemma short_line_skipped_witness :
  (commas (Trim lineShort cutset) < 10)%nat
  /\ length (fields lineShort) = S (commas (Trim lineShort cutset))
  /\ @parseLine storedOnly (sampleMessages, false) lineShort = (sampleMessages, true).
Proof.
  assert (commas (Trim lineShort cutset) < 10)%nat as Hfew by (vm_compute; lia).
  split; [exact Hfew|].
  exact (@short_line_skipped storedOnly (sampleMessages, false) lineShort Hfew).
Defined.

Lemma dlc_defaults_to_8_witness :
  lineKey lineC = Some 1000
  /\ ((length (fields lineC) < 12)%nat \/ (Atoi (nth 11 (fields lineC) [])).2 <> None)
  /\ (@parseLine storedOnly (∅, false) lineC).2 = true
  /\ @DLC storedOnly <$> (parseLine (∅, false) lineC).1 !! 1000
     = Some (match (∅ : gmap Z (@Message storedOnly)) !! 1000 with
             | Some m => Z.max (DLC m) 8
             | None => 8
             end).
Proof.
  assert ((length (fields lineC) < 12)%nat
          \/ (Atoi (nth 11 (fields lineC) [])).2 <> None) as Hbad
    by (left; vm_compute; lia).
  split; [reflexivity|]. split; [exact Hbad|].
  exact (@dlc_defaults_to_8 storedOnly (∅, false) lineC 1000 eq_refl Hbad).
Defined.

Lemma separators_in_cutset :
  Forall (fun c => c ∈ cutset) (str ",, ") /\ Forall (fun c => c ∈ cutset) (str " ,,").
Proof.
  split; repeat constructor; refine (bool_decide_unpack _ _); vm_compute; exact I.
Qed.

Lemma surrounding_separators_ignored_witness :
  Forall (fun c => c ∈ cutset) (str ",, ")
  /\ Forall (fun c => c ∈ cutset) (str " ,,")
  /\ fields (str ",, " ++ lineA ++ str " ,,") = fields lineA
  /\ @parseLine storedOnly (∅, false) (str ",, " ++ lineA ++ str " ,,")
     = @parseLine storedOnly (∅, false) lineA.
Proof.
  split; [exact (proj1 separators_in_cutset)|].
  split; [exact (proj2 separators_in_cutset)|].
  exact (@surrounding_separators_ignored storedOnly (∅, false) _ lineA _
           (proj1 separators_in_cutset) (proj2 separators_in_cutset)).
Defined.

Lemma output_flag_ignored_for_several_inputs_witness :
  let run outputFileFlag :=
    @main storedOnly unit (fun _ _ => None) (fun _ _ => SinkOK) (fun w _ _ => w)
      (fun p => p ++ str ".dbc") (str "a.ref") outputFileFlag [str "b.ref"] tt in
  (1 < length (inputFilesOf (str "a.ref") [str "b.ref"]))%nat
  /\ outputFlagWarning (run (str "out.dbc")) = true
  /\ outputFlagWarning (run []) = false
  /\ conversions (run (str "out.dbc")) = conversions (run [])
  /\ filesProcessed (run (str "out.dbc")) = filesProcessed (run [])
  /\ hadAnyIssues (run (str "out.dbc")) = hadAnyIssues (run [])
  /\ world (run (str "out.dbc")) = world (run [])
  /\ exitStatus (run (str "out.dbc")) = exitStatus (run []).
Proof.
  assert (1 < length (inputFilesOf (str "a.ref") [str "b.ref"]))%nat as Hseveral
    by (vm_compute; lia).
  split; [exact Hseveral|].
  exact (@output_flag_ignored_for_several_inputs storedOnly unit _ _ _ _
           (str "a.ref") (str "out.dbc") [str "b.ref"] tt Hseveral).
Defined.



(** The kinds of failure of [Atoi].  On the line [lineD] the start bit is
    out of range and becomes the largest [int], and the length is not a
    number and becomes 0.  Digits that leave the range give the range error
    and the bound whatever follows them, and a minus sign turns the bound
    into the smallest [int]. *)
Example lineD_fields :
  Atoi (nth 3 (fields lineD) []) = (9223372036854775807, Some ErrRange)
  /\ Atoi (nth 4 (fields lineD) []) = (0, Some ErrSyntax)
  /\ Atoi (str "99999999999999999999abc") = (9223372036854775807, Some ErrRange)
  /\ Atoi (str "-99999999999999999999") = (-9223372036854775808, Some ErrRange)
  /\ Atoi (str "12abc") = (0, Some ErrSyntax)
  /\ Atoi (str "-9223372036854775808") = (-9223372036854775808, None)
  /\ Atoi (str "+16") = (16, None).
Proof. repeat split; reflexivity. Qed.

Lemma sample_holds : Forall2 (@holds storedOnly) sampleEntries sampleContents.
Proof.
  assert (forall line, bool_decide (LF ∈ line) = false ->
                       (Z.of_nat (length line) <? MaxScanTokenSize) = true ->
                       scannable line) as Hline.
  { intros line Hno Hlen. split; [by apply bool_decide_eq_false in Hno | lia]. }
  constructor; [|constructor; [|constructor; [|constructor]]].
  - split; [vm_compute; reflexivity|].
    repeat (apply Forall_cons; split; [apply Hline; vm_compute; reflexivity|]).
    apply Forall_nil_2.
  - reflexivity.
  - split; [vm_compute; reflexivity|].
    repeat (apply Forall_cons; split; [apply Hline; vm_compute; reflexivity|]).
    apply Forall_nil_2.
Qed.

Lemma corrupt_entry_skipped_witness :
  wellFormed (str "RACELOGIC") (str "SN0042") (str "not zlib") sampleEntries
  /\ (exists entry, entry ∈ sampleEntries /\ @decompressZlib storedOnly entry = None)
  /\ Forall2 (@holds storedOnly) sampleEntries sampleContents
  /\ (let input := mkReader (sampleContainer ++ []) CleanEOF in
      @readContainer storedOnly input = Ok ([lineC; lineA; lineD; lineB], true)
      /\ @processFile storedOnly (Some input) SinkOK
         = mkOutcome true None
             (Some (concat (writeDBC (@parseSignalLines storedOnly
                                        [lineC; lineA; lineD; lineB]).1)))).
Proof.
  assert (exists entry, entry ∈ sampleEntries
                        /\ @decompressZlib storedOnly entry = None) as Hbad.
  { exists (str "not zlib"). split; [|reflexivity].
    apply list_elem_of_further, list_elem_of_here. }
  split; [exact sample_wellFormed|]. split; [exact Hbad|].
  split; [exact sample_holds|].
  destruct (@corrupt_entry_skipped storedOnly _ _ _ _ [] sample_wellFormed Hbad)
    as (Hread & Hwritten & Hlines).
  rewrite (Hlines _ sample_holds) in Hread, Hwritten.
  split; [exact Hread | exact Hwritten].
Defined.

Lemma other_wellFormed :
  wellFormed (str "VBOX") [] (zlibStore (str "SN0042")) sampleEntries.
Proof.
  split; try reflexivity. apply sample_wellFormed.
Qed.

Lemma headers_do_not_matter_witness :
  wellFormed (str "RACELOGIC") (str "SN0042") (str "not zlib") sampleEntries
  /\ wellFormed (str "VBOX") [] (zlibStore (str "SN0042")) sampleEntries
  /\ @processFile storedOnly
       (Some (mkReader (container (str "RACELOGIC") (str "SN0042") (str "not zlib")
                                  sampleEntries ++ []) CleanEOF)) SinkOK
     = @processFile storedOnly
         (Some (mkReader (container (str "VBOX") [] (zlibStore (str "SN0042"))
                                    sampleEntries ++ []) CleanEOF)) SinkOK.
Proof.
  split; [exact sample_wellFormed|]. split; [exact other_wellFormed|].
  exact (@headers_do_not_matter storedOnly _ _ _ _ _ _ sampleEntries [] CleanEOF
           SinkOK sample_wellFormed other_wellFormed).
Defined.

Lemma sample_same_lines_per_key :
  forall id, linesFor id [lineC; lineA; lineD; lineB]
             = linesFor id [lineA; lineShort; lineB; lineD; lineC].
Proof.
  intros id. unfold linesFor. rewrite !filter_cons, filter_nil.
  change (lineKey lineA) with (Some 256). change (lineKey lineB) with (Some 256).
  change (lineKey lineC) with (Some 1000). change (lineKey lineD) with (Some 20).
  change (lineKey lineShort) with (@None Z).
  repeat case_decide; congruence.
Qed.

Lemma messages_depend_on_lines_per_key_witness :
  (forall id, linesFor id [lineC; lineA; lineD; lineB]
              = linesFor id [lineA; lineShort; lineB; lineD; lineC])
  /\ (@parseSignalLines storedOnly [lineC; lineA; lineD; lineB]).1
     = (@parseSignalLines storedOnly [lineA; lineShort; lineB; lineD; lineC]).1
  /\ writeDBC (@parseSignalLines storedOnly [lineC; lineA; lineD; lineB]).1
     = writeDBC (@parseSignalLines storedOnly [lineA; lineShort; lineB; lineD; lineC]).1.
Proof.
  split; [exact sample_same_lines_per_key|].
  exact (@messages_depend_on_lines_per_key storedOnly _ _ sample_same_lines_per_key).
Defined.
